(** * Portland Heritage Trees dashboard (app8.py): data pipeline

    A shallow embedding of the script's in-memory pipeline
    (fetch and normalise, filter, aggregate, build the map payload,
    export) and the properties its specification states about it.

    Modelling conventions.
    - A Python [str] is a sequence of Unicode code points ([list N]);
      [lit] injects the ASCII literals of the source.
    - A table cell is a string, a finite number (an exact rational: every
      finite float is one, and comparison, min, max and int() are exact
      on floats) or the missing value (None / NaN, which pandas treats
      alike).  The numbers of a feed are taken to be finite: a literal
      that overflows to an infinity (1e999), on which [int()] would
      raise OverflowError at lines 52-62, has no cell and lies outside
      this model.
    - A row is the ordered dict that [get_clean_data] appends to [rows];
      a frame is a column index plus its rows, as pandas builds it from
      a list of dicts.
    - COMMON is a string column, HEIGHT and DIAMETER are numeric
      columns: the typed readers below return the value of that type,
      and read anything else as missing. *)

From Stdlib Require Import ZArith NArith QArith Qminmax Qround Lia List Ascii String.
From stdpp Require Import base option list gmap sorting.

Local Open Scope list_scope.

(** ** Python strings *)

Abbreviation pystr := (list N).

Definition lit (s : string) : pystr :=
  List.map N_of_ascii (list_ascii_of_string s).

(** ** Cells, rows, frames *)

Inductive cell : Type :=
| CStr (s : pystr)
| CNum (x : Q)
| CNull.

Abbreviation Row := (list (pystr * cell)).

(** [d[k]] on a dict, as an option (None: KeyError). *)
Fixpoint dict_get (k : pystr) (d : Row) : option cell :=
  match d with
  | [] => None
  | (k', v) :: d' => if bool_decide (k' = k) then Some v else dict_get k d'
  end.

(** [d[k] = v]: an existing key keeps its position, a new one goes last. *)
Fixpoint dict_set (k : pystr) (v : cell) (d : Row) : Row :=
  match d with
  | [] => [(k, v)]
  | (k', v') :: d' =>
      if bool_decide (k' = k) then (k', v) :: d' else (k', v') :: dict_set k v d'
  end.

Definition dict_keys (d : Row) : list pystr := List.map fst d.

Record DataFrame : Type := mkDataFrame {
  columns : list pystr;
  rows : list Row
}.

(** Union of the dicts' keys in order of first appearance. *)
Fixpoint add_keys (ks acc : list pystr) : list pystr :=
  match ks with
  | [] => acc
  | k :: ks' =>
      if bool_decide (k ∈ acc) then add_keys ks' acc else add_keys ks' (acc ++ [k])
  end.

Definition union_keys (ds : list Row) : list pystr :=
  fold_left (fun acc d => add_keys (dict_keys d) acc) ds [].

(** [pd.DataFrame(rows)] for a list of dicts; [pd.DataFrame()] is
    [pd_DataFrame []]. *)
Definition pd_DataFrame (ds : list Row) : DataFrame :=
  {| columns := union_keys ds; rows := ds |}.

(** [df.empty] *)
Definition empty (df : DataFrame) : bool :=
  match columns df, rows df with
  | _ :: _, _ :: _ => false
  | _, _ => true
  end.

(** [len(df)] *)
Definition len (df : DataFrame) : nat := length (rows df).

(** ** Typed column readers *)

Definition str_of (c : option cell) : option pystr :=
  match c with Some (CStr s) => Some s | _ => None end.

Definition num_of (c : option cell) : option Q :=
  match c with Some (CNum x) => Some x | _ => None end.

Definition COMMON (r : Row) : option pystr := str_of (dict_get (lit "COMMON") r).
Definition HEIGHT (r : Row) : option Q := num_of (dict_get (lit "HEIGHT") r).
Definition DIAMETER (r : Row) : option Q := num_of (dict_get (lit "DIAMETER") r).
Definition lat (r : Row) : option cell := dict_get (lit "lat") r.
Definition lon (r : Row) : option cell := dict_get (lit "lon") r.

(** ** Element-wise comparisons (pandas semantics: a comparison with a
    missing value is False) *)

(** [series == choice] *)
Definition eq_str (v : option pystr) (choice : pystr) : bool :=
  match v with
  | Some s => bool_decide (s = choice)
  | None => false
  end.

(** [series >= b] for an int [b] *)
Definition ge_int (v : option Q) (b : Z) : bool :=
  match v with
  | Some x => Qle_bool (inject_Z b) x
  | None => false
  end.

(** [series <= b] for an int [b] *)
Definition le_int (v : option Q) (b : Z) : bool :=
  match v with
  | Some x => Qle_bool x (inject_Z b)
  | None => false
  end.

(** [df[mask]]: a new frame with the same columns and the rows whose
    mask entry is True, in order. *)
Definition getitem_mask (df : DataFrame) (mask : Row -> bool) : DataFrame :=
  {| columns := columns df; rows := List.filter mask (rows df) |}.

(** [df.copy()] *)
Definition copy (df : DataFrame) : DataFrame :=
  {| columns := columns df; rows := rows df |}.

(** ** Filter criteria (the widget values read at lines 49-67) *)

Record FilterCriteria : Type := mkCriteria {
  choice : pystr;
  height_range : Z * Z;
  diameter_range : Z * Z
}.

Definition All : pystr := lit "All".

Definition species_mask (c : FilterCriteria) (r : Row) : bool :=
  eq_str (COMMON r) (choice c).

Definition height_mask (c : FilterCriteria) (r : Row) : bool :=
  ge_int (HEIGHT r) (fst (height_range c)) && le_int (HEIGHT r) (snd (height_range c)).

Definition diameter_mask (c : FilterCriteria) (r : Row) : bool :=
  ge_int (DIAMETER r) (fst (diameter_range c)) && le_int (DIAMETER r) (snd (diameter_range c)).

(** Lines 82-83. *)
Definition species_filter (df_filtered : DataFrame) (c : FilterCriteria) : DataFrame :=
  if bool_decide (choice c ≠ All)
  then getitem_mask df_filtered (species_mask c)
  else df_filtered.

(** Lines 79-95, as a function of the frame. *)
Definition apply_filters (df : DataFrame) (c : FilterCriteria) : DataFrame :=
  let df_filtered := copy df in
  let df_filtered := species_filter df_filtered c in
  let df_filtered := getitem_mask df_filtered (height_mask c) in
  let df_filtered := getitem_mask df_filtered (diameter_mask c) in
  df_filtered.

(** ** The same block over an object store

    Frames are heap objects and variables hold references; [df.copy()]
    and [df[mask]] allocate a new frame, and no statement of the block
    writes to an existing one. *)

Abbreviation loc := nat.
Abbreviation heap := (list DataFrame).

(** A computation over the store that may raise. *)
Definition M (A : Type) : Type := heap -> option (A * heap).

Definition ret {A} (a : A) : M A := fun h => Some (a, h).

Definition bind {A B} (m : M A) (k : A -> M B) : M B :=
  fun h => match m h with
           | Some (a, h') => k a h'
           | None => None
           end.

Notation "x <- m ;; k" := (bind m (fun x => k))
  (at level 100, m at next level, right associativity).

Definition deref (l : loc) : M DataFrame :=
  fun h => match h !! l with Some d => Some (d, h) | None => None end.

Definition alloc (d : DataFrame) : M loc :=
  fun h => Some (length h, h ++ [d]).

Definition copy_obj (l : loc) : M loc :=
  d <- deref l ;; alloc (copy d).

Definition getitem_mask_obj (l : loc) (mask : Row -> bool) : M loc :=
  d <- deref l ;; alloc (getitem_mask d mask).

Definition filter_block (df : loc) (c : FilterCriteria) : M loc :=
  df_filtered <- copy_obj df ;;
  df_filtered <- (if bool_decide (choice c ≠ All)
                  then getitem_mask_obj df_filtered (species_mask c)
                  else ret df_filtered) ;;
  df_filtered <- getitem_mask_obj df_filtered (height_mask c) ;;
  df_filtered <- getitem_mask_obj df_filtered (diameter_mask c) ;;
  ret df_filtered.

(** ** Dataset fetcher (lines 22-37)

    [response] is what [requests.get(url, params).json()] evaluates to:
    an exception (network failure, body that is not JSON) or the parsed
    object.  A feature's [properties] and [geometry] are [None] when the
    key is absent or holds JSON null; [geometry] carries the
    [coordinates] array. *)

Inductive exn : Type :=
| RequestError
| KeyError
| TypeError
| IndexError
| ValueError
| UnicodeEncodeError.

(** A computation that returns or raises. *)
Definition and_then {A B} (m : exn + A) (k : A -> exn + B) : exn + B :=
  match m with
  | inl e => inl e
  | inr a => k a
  end.

Notation "x <-! m ;; k" := (and_then m (fun x => k))
  (at level 100, m at next level, right associativity).

(** An access that raises [e] when there is nothing to read. *)
Definition or_raise {A} (o : option A) (e : exn) : exn + A :=
  match o with
  | Some a => inr a
  | None => inl e
  end.

Record Feature : Type := mkFeature {
  properties : option Row;
  geometry : option (list cell)
}.

Record Response : Type := mkResponse {
  features : option (list Feature)
}.

(** One pass of the loop body, lines 30-33.  The right-hand side
    [f['geometry']['coordinates'][1]] is evaluated before the store into
    [props]. *)
Definition loop_body (f : Feature) (rows : list Row) : exn + list Row :=
  let props := properties f in
  coordinates <-! or_raise (geometry f) TypeError ;;
  c1 <-! or_raise (coordinates !! 1%nat) IndexError ;;
  props <-! or_raise props TypeError ;;
  let props := dict_set (lit "lat") c1 props in
  c0 <-! or_raise (coordinates !! 0%nat) IndexError ;;
  let props := dict_set (lit "lon") c0 props in
  inr (rows ++ [props]).

(** The [for] loop: the first exception leaves the loop and the [try]. *)
Fixpoint loop (fs : list Feature) (rows : list Row) : exn + list Row :=
  match fs with
  | [] => inr rows
  | f :: fs' => rows <-! loop_body f rows ;; loop fs' rows
  end.

(** [get_clean_data]: the frame returned, and the exception reported
    through [st.error] if any.  The [st.cache_data] decorator only
    memoises the result. *)
Definition get_clean_data (response : exn + Response) : DataFrame * option exn :=
  let try :=
    response <-! response ;;
    fs <-! or_raise (features response) KeyError ;;
    rows <-! loop fs [] ;;
    inr (pd_DataFrame rows) in
  match try with
  | inr df => (df, None)
  | inl e => (pd_DataFrame [], Some e)
  end.

(** ** Series reductions (pandas defaults: skipna=True, dropna=True) *)

(** [series.dropna()] *)
Fixpoint dropna {A} (s : list (option A)) : list A :=
  match s with
  | [] => []
  | Some x :: s' => x :: dropna s'
  | None :: s' => dropna s'
  end.

(** [series.unique()] on the present values: first appearances, in order. *)
Definition unique (l : list pystr) : list pystr := add_keys l [].

(** [series.nunique()] *)
Definition nunique (s : list (option pystr)) : nat := length (unique (dropna s)).

Definition Qsum (l : list Q) : Q := fold_right Qplus 0%Q l.

(** [series.min()], [series.max()]: None stands for NaN (no value present). *)
Definition series_min (s : list (option Q)) : option Q :=
  match dropna s with
  | [] => None
  | x :: xs => Some (fold_left Qmin xs x)
  end.

Definition series_max (s : list (option Q)) : option Q :=
  match dropna s with
  | [] => None
  | x :: xs => Some (fold_left Qmax xs x)
  end.

(** [series.mean()]: the sum of the present values over their number;
    NaN when there is none.  Rounding of the float sum is not modelled. *)
Definition series_mean (s : list (option Q)) : option Q :=
  match dropna s with
  | [] => None
  | xs => Some (Qsum xs / inject_Z (Z.of_nat (length xs)))%Q
  end.

(** Truncation toward zero. *)
Definition trunc (x : Q) : Z := Z.quot (Qnum x) (Zpos (Qden x)).

(** [int(x)] on a float: truncation toward zero; NaN raises. *)
Definition py_int (v : option Q) : exn + Z :=
  match v with
  | Some x => inr (trunc x)
  | None => inl ValueError
  end.

Definition col {A} (f : Row -> A) (df : DataFrame) : list A := List.map f (rows df).

(** [df[name]]: the column as a series, KeyError when the frame has no
    such column.  An entry whose row lacks the key is missing. *)
Definition getitem (name : pystr) (df : DataFrame) : exn + list (option cell) :=
  if bool_decide (name ∈ columns df)
  then inr (List.map (dict_get name) (rows df))
  else inl KeyError.

(** ** Sidebar (lines 48-67): the bounds handed to the two sliders, which
    are also their default value. *)

Definition slider_bounds (df : DataFrame) : exn + ((Z * Z) * (Z * Z)) :=
  _ <-! getitem (lit "HEIGHT") df ;;
  min_height <-! py_int (series_min (col HEIGHT df)) ;;
  max_height <-! py_int (series_max (col HEIGHT df)) ;;
  _ <-! getitem (lit "DIAMETER") df ;;
  min_diameter <-! py_int (series_min (col DIAMETER df)) ;;
  max_diameter <-! py_int (series_max (col DIAMETER df)) ;;
  inr ((min_height, max_height), (min_diameter, max_diameter)).

(** The criteria in force when the user touches nothing: "All" is the
    first option of the select box, each slider starts at its bounds. *)
Definition default_criteria (df : DataFrame) : exn + FilterCriteria :=
  bounds <-! slider_bounds df ;;
  inr {| choice := All; height_range := fst bounds; diameter_range := snd bounds |}.

(** ** Host formatting

    The renderings of a finite float that the script obtains from
    Python and pandas, and the platform's line separator, are taken as
    given; what is required of them is that they are ASCII text. *)

Definition ascii_text (s : pystr) : Prop := Forall (fun c => (c < 128)%N) s.

Class Host : Type := {
  (* str(row[name]) inside an f-string, for a row that iterrows yields
     from the frame, when the entry is not a string: its text depends on
     the dtype pandas gave the column *)
  str_entry : DataFrame -> pystr -> Row -> pystr;
  (* float(s) for a string: None when it raises or gives NaN *)
  float_of_str : pystr -> option Q;
  format_1f : Q -> pystr;     (* format(x, '.1f') *)
  csv_float : Q -> pystr;     (* a number as to_csv writes it *)
  linesep : pystr;            (* os.linesep, to_csv's line terminator *)
  csv_float_ascii : forall x, ascii_text (csv_float x);
  linesep_ascii : ascii_text linesep
}.

(** ** Aggregator (lines 147-153) *)

Record Metrics : Type := mkMetrics {
  total_trees : nat;
  species_count : nat;
  avg_height : pystr;
  avg_diameter : pystr
}.

(** [f"{x:.1f}"] for the result of [mean()]. *)
Definition format_mean `{Host} (v : option Q) : pystr :=
  match v with
  | Some x => format_1f x
  | None => lit "nan"
  end.

Definition metrics `{Host} (df_filtered : DataFrame) : Metrics :=
  {| total_trees := len df_filtered;
     species_count := nunique (col COMMON df_filtered);
     avg_height := format_mean (series_mean (col HEIGHT df_filtered)) ++ lit " ft";
     avg_diameter := format_mean (series_mean (col DIAMETER df_filtered)) ++ lit " in" |}.

(** ** Visualization selector (lines 104-138) *)

Record CircleMarker : Type := mkCircleMarker {
  location : Q * Q;
  radius : Z;
  color : pystr;
  fill : bool;
  fillOpacity : Q;
  tooltip : pystr;
  sticky : bool
}.

(** What is added to the map [m]. *)
Inductive Layer : Type :=
| HeatMap (locations : list (Q * Q)) (radius blur : Z)
| MarkerCluster (children : list CircleMarker)
| Marker (marker : CircleMarker).

Definition MAIN_COLOR : pystr := lit "#023F02".

(** One coordinate, as folium's [validate_location] takes it: it must
    convert to a float that is not NaN, or ValueError is raised.  A
    missing entry (None, NaN, a key the row lacks) does not. *)
Definition coordinate `{Host} (c : option cell) : exn + Q :=
  match c with
  | Some (CNum x) => inr x
  | Some (CStr s) => or_raise (float_of_str s) ValueError
  | _ => inl ValueError
  end.

(** [validate_location([row['lat'], row['lon']])] *)
Definition validate_location `{Host} (row : Row) : exn + (Q * Q) :=
  la <-! coordinate (lat row) ;;
  lo <-! coordinate (lon row) ;;
  inr (la, lo).

(** [str(row[name])] inside an f-string: a string is its own text. *)
Definition str_item `{Host} (df : DataFrame) (name : pystr) (row : Row) : pystr :=
  match dict_get name row with
  | Some (CStr s) => s
  | _ => str_entry df name row
  end.

(** A constructor applied to each row in turn; the first exception ends
    the loop. *)
Fixpoint for_each {A} (body : Row -> exn + A) (rows : list Row) : exn + list A :=
  match rows with
  | [] => inr []
  | row :: rows' =>
      a <-! body row ;;
      rest <-! for_each body rows' ;;
      inr (a :: rest)
  end.

(** Lines 112-113: [HeatMap] validates every location it is given. *)
Definition heatmap_branch `{Host} (df_filtered : DataFrame) : exn + list Layer :=
  locations <-! for_each validate_location (rows df_filtered) ;;
  inr [HeatMap locations 15 10].

(** Lines 116-126. *)
Definition cluster_branch `{Host} (df_filtered : DataFrame) : exn + list Layer :=
  cluster <-! for_each (fun row =>
      let tooltip_html :=
        lit "<b>" ++ str_item df_filtered (lit "COMMON") row
        ++ lit "</b><br>Height: " ++ str_item df_filtered (lit "HEIGHT") row
        ++ lit " ft<br>Diameter: " ++ str_item df_filtered (lit "DIAMETER") row
        ++ lit " in" in
      location <-! validate_location row ;;
      inr {| location := location;
             radius := 8;
             color := MAIN_COLOR;
             fill := true;
             fillOpacity := (8 # 10)%Q;
             tooltip := tooltip_html;
             sticky := true |}) (rows df_filtered) ;;
  inr [MarkerCluster cluster].

(** Lines 129-138. *)
Definition markers_branch `{Host} (df_filtered : DataFrame) : exn + list Layer :=
  for_each (fun row =>
      let tooltip_html :=
        lit "<b>" ++ str_item df_filtered (lit "COMMON") row
        ++ lit "</b><br>Height: " ++ str_item df_filtered (lit "HEIGHT") row
        ++ lit " ft<br>Diameter: " ++ str_item df_filtered (lit "DIAMETER") row
        ++ lit " in" in
      location <-! validate_location row ;;
      inr (Marker {| location := location;
                     radius := 8;
                     color := MAIN_COLOR;
                     fill := true;
                     fillOpacity := (8 # 10)%Q;
                     tooltip := tooltip_html;
                     sticky := true |})) (rows df_filtered).

(** The three-way dispatch on [map_type]: what is added to the map, or
    the exception folium raises.  The columns read here are in the
    frame: the script has read COMMON, HEIGHT and DIAMETER before
    (lines 48-62), and every fetched row carries lat and lon. *)
Definition build_map `{Host} (map_type : pystr) (df_filtered : DataFrame) : exn + list Layer :=
  if bool_decide (map_type = lit "HeatMap") then heatmap_branch df_filtered
  else if bool_decide (map_type = lit "Marker Cluster") then cluster_branch df_filtered
  else markers_branch df_filtered.

(** The payload as the specification names it: the coordinate pairs of a
    heat map, the markers of the other two modes. *)
Definition layer_points (l : Layer) : list (Q * Q) :=
  match l with
  | HeatMap locations _ _ => locations
  | MarkerCluster children => List.map location children
  | Marker m => [location m]
  end.

Definition layer_markers (l : Layer) : list CircleMarker :=
  match l with
  | HeatMap _ _ _ => []
  | MarkerCluster children => children
  | Marker m => [m]
  end.

Definition payload_points (ls : list Layer) : list (Q * Q) := flat_map layer_points ls.
Definition payload_markers (ls : list Layer) : list CircleMarker := flat_map layer_markers ls.

(** ** Exporter (line 160): [df_filtered.to_csv(index=False).encode('utf-8')] *)

Definition COMMA : N := 44.
Definition QUOTE : N := 34.

(** The csv writer's QUOTE_MINIMAL rule: a field is quoted when it holds
    the delimiter, the quote character or a character of the line
    terminator; quote characters inside are doubled. *)
Definition csv_special `{Host} (c : N) : bool :=
  (c =? COMMA)%N || (c =? QUOTE)%N || bool_decide (c ∈ linesep).

Definition csv_quote (s : pystr) : pystr :=
  [QUOTE] ++ flat_map (fun c => if (c =? QUOTE)%N then [QUOTE; QUOTE] else [c]) s ++ [QUOTE].

Definition csv_field `{Host} (s : pystr) : pystr :=
  if existsb csv_special s then csv_quote s else s.

(** The text of a cell: a string as it is, a number as pandas formats
    it, a missing value as the empty string. *)
Definition cell_string `{Host} (c : option cell) : pystr :=
  match c with
  | Some (CStr s) => s
  | Some (CNum x) => csv_float x
  | _ => []
  end.

(** A cell as a field: its text, handed to the csv writer. *)
Definition csv_cell `{Host} (c : option cell) : pystr := csv_field (cell_string c).

Fixpoint join (sep : pystr) (fields : list pystr) : pystr :=
  match fields with
  | [] => []
  | [f] => f
  | f :: fs => f ++ sep ++ join sep fs
  end.

(** One record; a record made of a single empty field is written as a
    pair of quotes. *)
Definition csv_record `{Host} (fields : list pystr) : pystr :=
  match fields with
  | [[]] => [QUOTE; QUOTE] ++ linesep
  | _ => join [COMMA] fields ++ linesep
  end.

Definition csv_header `{Host} (df : DataFrame) : pystr :=
  csv_record (List.map csv_field (columns df)).

Definition csv_row `{Host} (df : DataFrame) (r : Row) : pystr :=
  csv_record (List.map (fun name => csv_cell (dict_get name r)) (columns df)).

Definition to_csv `{Host} (df : DataFrame) : pystr :=
  csv_header df ++ flat_map (csv_row df) (rows df).

(** *** UTF-8 *)

Definition is_surrogate (c : N) : bool := ((55296 <=? c) && (c <=? 57343))%N.

(** A code point that denotes a character: below 0x110000 and not a
    surrogate. *)
Definition scalar_value (c : N) : Prop := (c < 1114112)%N /\ is_surrogate c = false.

Definition unicode_text (s : pystr) : Prop := Forall scalar_value s.

Definition encode_char (c : N) : exn + list N :=
  (if c <? 128 then inr [c]
   else if c <? 2048 then inr [192 + c / 64; 128 + c mod 64]
   else if c <? 65536 then
     if is_surrogate c then inl UnicodeEncodeError
     else inr [224 + c / 4096; 128 + (c / 64) mod 64; 128 + c mod 64]
   else if c <? 1114112 then
     inr [240 + c / 262144; 128 + (c / 4096) mod 64; 128 + (c / 64) mod 64; 128 + c mod 64]
   else inl UnicodeEncodeError)%N.

(** [s.encode('utf-8')] *)
Fixpoint encode_utf8 (s : pystr) : exn + list N :=
  match s with
  | [] => inr []
  | c :: s' =>
      bs <-! encode_char c ;;
      bs' <-! encode_utf8 s' ;;
      inr (bs ++ bs')
  end.

Definition continuation (b : N) : bool := ((128 <=? b) && (b <? 192))%N.

(** The strict decoder (shortest form only, no surrogates, nothing above
    0x10FFFF): the text a byte sequence denotes, if it is UTF-8. *)
Fixpoint decode_utf8 (bs : list N) : option pystr :=
  match bs with
  | [] => Some []
  | b1 :: t1 =>
      if (b1 <? 128)%N then cons b1 <$> decode_utf8 t1
      else if ((194 <=? b1) && (b1 <? 224))%N then
        match t1 with
        | b2 :: t2 =>
            if continuation b2
            then cons ((b1 - 192) * 64 + (b2 - 128))%N <$> decode_utf8 t2
            else None
        | _ => None
        end
      else if ((224 <=? b1) && (b1 <? 240))%N then
        match t1 with
        | b2 :: b3 :: t3 =>
            let c := ((b1 - 224) * 4096 + (b2 - 128) * 64 + (b3 - 128))%N in
            if continuation b2 && continuation b3 && (2048 <=? c)%N && negb (is_surrogate c)
            then cons c <$> decode_utf8 t3
            else None
        | _ => None
        end
      else if ((240 <=? b1) && (b1 <? 245))%N then
        match t1 with
        | b2 :: b3 :: b4 :: t4 =>
            let c := ((b1 - 240) * 262144 + (b2 - 128) * 4096 + (b3 - 128) * 64 + (b4 - 128))%N in
            if continuation b2 && continuation b3 && continuation b4
               && (65536 <=? c)%N && (c <? 1114112)%N
            then cons c <$> decode_utf8 t4
            else None
        | _ => None
        end
      else None
  end.

Definition is_byte (b : N) : Prop := (b < 256)%N.

Definition csv_bytes `{Host} (df_filtered : DataFrame) : exn + list N :=
  encode_utf8 (to_csv df_filtered).

(** ** The page (lines 79-167): what the three consumers of the filtered
    frame hand to the rendering surface and the widget layer. *)

Record Page : Type := mkPage {
  map_view_trees : nat;
  map_layers : exn + list Layer;
  statistics : Metrics;
  download : exn + list N
}.

Definition render `{Host} (df : DataFrame) (c : FilterCriteria) (map_type : pystr) : Page :=
  let df_filtered := apply_filters df c in
  {| map_view_trees := len df_filtered;
     map_layers := build_map map_type df_filtered;
     statistics := metrics df_filtered;
     download := csv_bytes df_filtered |}.

(** ** The script

    [widgets] stands for the widget layer: given the frame and the slider
    bounds it returns what the user selected.  The result is the
    exception the script stops on, or the page: [None] is the error page
    shown when the frame is empty.  The statements run in the order of
    the source: the species column is read first (line 48), then the
    slider bounds (lines 52-62), then the map is built (lines 104-138),
    then the export is encoded (line 160); the first exception stops the
    script. *)
Definition main `{Host} (response : exn + Response)
    (widgets : DataFrame -> (Z * Z) * (Z * Z) -> FilterCriteria * pystr) : exn + option Page :=
  let df := fst (get_clean_data response) in
  if negb (empty df) then
    _ <-! getitem (lit "COMMON") df ;;
    bounds <-! slider_bounds df ;;
    let '(c, map_type) := widgets df bounds in
    let page := render df c map_type in
    _ <-! map_layers page ;;
    _ <-! download page ;;
    inr (Some page)
  else inr None.

(** The row test the three successive selections amount to. *)
Definition keeps (c : FilterCriteria) (r : Row) : bool :=
  (bool_decide (choice c = All) || species_mask c r) && height_mask c r && diameter_mask c r.

(** The frame without the rows whose height or diameter is missing. *)
Definition measured (r : Row) : bool :=
  bool_decide (is_Some (HEIGHT r)) && bool_decide (is_Some (DIAMETER r)).

Definition without_missing (df : DataFrame) : DataFrame := getitem_mask df measured.

(** ** Reading a CSV record back

    A reader of one record (without its line terminator), as the csv
    module reads what it wrote: fields are separated by commas; a field
    that starts with a quote runs to the closing quote, a doubled quote
    inside standing for one quote. *)

Inductive reader_state : Type := AtStart | Plain | Quoted | AfterQuote.

Fixpoint read_fields (st : reader_state) (cur : pystr) (s : pystr) : option (list pystr) :=
  match s with
  | [] =>
      match st with
      | Quoted => None
      | _ => Some [cur]
      end
  | c :: s' =>
      match st with
      | AtStart =>
          if (c =? QUOTE)%N then read_fields Quoted [] s'
          else if (c =? COMMA)%N then cons [] <$> read_fields AtStart [] s'
          else read_fields Plain [c] s'
      | Plain =>
          if (c =? COMMA)%N then cons cur <$> read_fields AtStart [] s'
          else if (c =? QUOTE)%N then None
          else read_fields Plain (cur ++ [c]) s'
      | Quoted =>
          if (c =? QUOTE)%N then read_fields AfterQuote cur s'
          else read_fields Quoted (cur ++ [c]) s'
      | AfterQuote =>
          if (c =? QUOTE)%N then read_fields Quoted (cur ++ [QUOTE]) s'
          else if (c =? COMMA)%N then cons cur <$> read_fields AtStart [] s'
          else None
      end
  end.

(** An empty record has no field. *)
Definition read_record (s : pystr) : option (list pystr) :=
  match s with
  | [] => Some []
  | _ => read_fields AtStart [] s
  end.

(** A feature with a property whose name is an unpaired surrogate, as
    [json.loads] reads it from the escape \ud800. *)
Definition surrogate_feature : Feature :=
  {| properties := Some [(lit "COMMON", CStr (lit "Oak"));
                         (lit "HEIGHT", CNum 50);
                         (lit "DIAMETER", CNum 20);
                         ([55296%N], CNull)];
     geometry := Some [CNum (-1226 # 10); CNum (455 # 10)] |}.

(** ** A sample dataset *)

Definition tree (common : string) (height diameter la lo : Q) : Row :=
  [(lit "COMMON", CStr (lit common));
   (lit "HEIGHT", CNum height);
   (lit "DIAMETER", CNum diameter);
   (lit "lat", CNum la);
   (lit "lon", CNum lo)].

Definition oak1 : Row := tree "Oak" 50 20 (455 # 10) (-1226 # 10).
Definition pine : Row := tree "Pine" 80 30 (4552 # 100) (-12265 # 100).
Definition oak2 : Row := tree "Oak" 60 25 (4551 # 100) (-12264 # 100).

(** A tree whose height the feed leaves null. *)
Definition unmeasured : Row :=
  [(lit "COMMON", CStr (lit "Elm"));
   (lit "HEIGHT", CNull);
   (lit "DIAMETER", CNum 40);
   (lit "lat", CNum (4553 # 100));
   (lit "lon", CNum (-12266 # 100))].

Definition sample : DataFrame := pd_DataFrame [oak1; pine; oak2].

Definition with_unmeasured : DataFrame := pd_DataFrame [oak1; unmeasured].

(** "All" with ranges far wider than any tree. *)
Definition widest : FilterCriteria :=
  {| choice := All;
     height_range := (-1000000, 1000000)%Z;
     diameter_range := (-1000000, 1000000)%Z |}.

Definition oaks_only : FilterCriteria :=
  {| choice := lit "Oak"; height_range := (0, 100)%Z; diameter_range := (0, 100)%Z |}.

(** ** Features, as the specification classifies them *)

(** The row a feature contributes when the loop body completes on it:
    its properties with [lat] and [lon] stored from the coordinates. *)
Definition row_of (f : Feature) : option Row :=
  match properties f, geometry f with
  | Some props, Some (c0 :: c1 :: _) =>
      Some (dict_set (lit "lon") c0 (dict_set (lit "lat") c1 props))
  | _, _ => None
  end.

Definition finite (c : cell) : bool :=
  match c with CNum _ => true | _ => false end.

(** Well-formed: a geometry is there and both coordinates are finite. *)
Definition well_formed (f : Feature) : bool :=
  match geometry f with
  | Some (c0 :: c1 :: _) => finite c0 && finite c1
  | _ => false
  end.

Definition response_of (fs : list Feature) : exn + Response :=
  inr {| features := Some fs |}.

Definition oak_props : Row :=
  [(lit "COMMON", CStr (lit "Oak")); (lit "HEIGHT", CNum 50); (lit "DIAMETER", CNum 20)].

Definition elm_props : Row :=
  [(lit "COMMON", CStr (lit "Elm")); (lit "HEIGHT", CNum 70); (lit "DIAMETER", CNum 40)].

Definition good_feature : Feature :=
  {| properties := Some oak_props; geometry := Some [CNum (-1226 # 10); CNum (455 # 10)] |}.

Definition no_geometry_feature : Feature :=
  {| properties := Some elm_props; geometry := None |}.

Definition nan_feature : Feature :=
  {| properties := Some elm_props; geometry := Some [CNull; CNull] |}.

(** What [series_mean] returns, in terms of the present values [xs]. *)
Definition is_mean_of (xs : list Q) (m : option Q) : Prop :=
  match m with
  | Some m => xs <> [] /\ (m * inject_Z (Z.of_nat (length xs)) == Qsum xs)%Q
  | None => xs = []
  end.

(** ** A host

    Numbers written in fixed point with one decimal (truncated), lines
    ended by a line feed. *)

Fixpoint uint_digits (u : Decimal.uint) : pystr :=
  match u with
  | Decimal.Nil => []
  | Decimal.D0 u => 48%N :: uint_digits u
  | Decimal.D1 u => 49%N :: uint_digits u
  | Decimal.D2 u => 50%N :: uint_digits u
  | Decimal.D3 u => 51%N :: uint_digits u
  | Decimal.D4 u => 52%N :: uint_digits u
  | Decimal.D5 u => 53%N :: uint_digits u
  | Decimal.D6 u => 54%N :: uint_digits u
  | Decimal.D7 u => 55%N :: uint_digits u
  | Decimal.D8 u => 56%N :: uint_digits u
  | Decimal.D9 u => 57%N :: uint_digits u
  end.

Definition decimal (n : N) : pystr := uint_digits (N.to_uint n).

Definition fixed1 (x : Q) : pystr :=
  let tenths := Z.quot (Qnum x * 10) (Zpos (Qden x)) in
  let m := Z.abs_N tenths in
  (if (tenths <? 0)%Z then [45%N] else [])
  ++ decimal (m / 10) ++ [46%N] ++ decimal (m mod 10).

Definition uint_digits_ascii (u : Decimal.uint) : ascii_text (uint_digits u).
Proof.
  induction u; simpl; constructor; (lia || assumption).
Defined.

Definition fixed1_ascii (x : Q) : ascii_text (fixed1 x).
Proof.
  unfold fixed1, ascii_text, decimal.
  repeat apply Forall_app_2; try apply uint_digits_ascii.
  - destruct (_ <? _)%Z; repeat constructor.
  - repeat constructor.
Defined.

Definition line_feed_ascii : ascii_text [10%N].
Proof. repeat constructor. Defined.

#[local] Instance decimal_host : Host := {|
  str_entry := fun _ name row =>
    match dict_get name row with
    | Some (CNum x) => fixed1 x
    | Some CNull => lit "None"
    | _ => lit "nan"
    end;
  float_of_str := fun _ => None;
  format_1f := fixed1;
  csv_float := fixed1;
  linesep := [10%N];
  csv_float_ascii := fixed1_ascii;
  linesep_ascii := line_feed_ascii
|}.

(** ** Reading a payload *)

(** [sub in s] *)
Definition contains (sub s : pystr) : Prop := exists pre post, s = pre ++ sub ++ post.

(** An entry that holds no value: the key is not there, or it holds
    None / NaN. *)
Definition no_value (c : option cell) : Prop := c = None \/ c = Some CNull.

(** The subset fetched from a response with a well-formed feature and one
    whose coordinates are null, under the widest criteria. *)
Definition with_nan_location : DataFrame :=
  apply_filters (fst (get_clean_data (response_of [good_feature; nan_feature]))) widest.

(** The coordinates of the sample's trees. *)
Definition sample_locations : list (Q * Q) :=
  [((455 # 10)%Q, (-1226 # 10)%Q);
   ((4552 # 100)%Q, (-12265 # 100)%Q);
   ((4551 # 100)%Q, (-12264 # 100)%Q)].

(** The record [row] has finite coordinates [la], [lo]. *)
Definition located (row : Row) (la lo : Q) : Prop :=
  lat row = Some (CNum la) /\ lon row = Some (CNum lo).

(** The marker [m] is the one of the record [row] of the frame [df]: it
    sits at the record's coordinates, and its tooltip is the species in
    bold, then the height in feet, then the diameter in inches, each as
    Python writes the entry: a species name as it is, a number as its
    column renders it. *)
Definition marker_shows `{Host} (df : DataFrame) (row : Row) (m : CircleMarker) : Prop :=
  (exists la lo, located row la lo /\ location m = (la, lo))
  /\ tooltip m =
       lit "<b>" ++ str_item df (lit "COMMON") row
       ++ lit "</b><br>Height: " ++ str_item df (lit "HEIGHT") row
       ++ lit " ft<br>Diameter: " ++ str_item df (lit "DIAMETER") row
       ++ lit " in"
  /\ contains (str_item df (lit "COMMON") row) (tooltip m)
  /\ contains (str_item df (lit "HEIGHT") row) (tooltip m)
  /\ contains (str_item df (lit "DIAMETER") row) (tooltip m)
  /\ (forall s, COMMON row = Some s -> str_item df (lit "COMMON") row = s)
  /\ radius m = 8%Z /\ color m = MAIN_COLOR /\ fill m = true /\ sticky m = true.

(** ** Observed extremes *)

Definition is_min_of (xs : list Q) (m : Q) : Prop :=
  m ∈ xs /\ forall x, x ∈ xs -> (m <= x)%Q.

Definition is_max_of (xs : list Q) (m : Q) : Prop :=
  m ∈ xs /\ forall x, x ∈ xs -> (x <= m)%Q.

(** A whole number: [int()] loses nothing. *)
Definition whole (x : Q) : Prop := (inject_Z (trunc x) == x)%Q.

(** A tree eighty and a half feet tall, and a dataset that has it. *)
Definition fir : Row := tree "Fir" (161 # 2) 30 (4552 # 100) (-12265 # 100).

Definition with_fir : DataFrame := pd_DataFrame [oak1; fir].

(** ** Text of a frame *)

Definition cell_text (c : cell) : Prop :=
  match c with
  | CStr s => unicode_text s
  | _ => True
  end.

(** Every string of the frame (column names, string cells) is made of
    characters: the feed's JSON text decodes to such strings. *)
Definition frame_text (df : DataFrame) : Prop :=
  Forall unicode_text (columns df)
  /\ Forall (fun r : Row => Forall (fun kv => cell_text (snd kv)) r) (rows df).

(** The records of the export: the header, then one per row. *)
Definition csv_records `{Host} (df : DataFrame) : list pystr :=
  csv_header df :: List.map (csv_row df) (rows df).

(** ** Species select box (lines 48-49) *)

(** [a < b] on strings: code point by code point, a proper prefix first. *)
Fixpoint str_lt (a b : pystr) : bool :=
  match a, b with
  | [], [] => false
  | [], _ :: _ => true
  | _ :: _, [] => false
  | x :: a', y :: b' => (x <? y)%N || ((x =? y)%N && str_lt a' b')
  end.

(** [sorted(l)] for a list of strings: ascending, equal elements in their
    original order. *)
Fixpoint insert_sorted (x : pystr) (l : list pystr) : list pystr :=
  match l with
  | [] => [x]
  | y :: l' => if str_lt y x then y :: insert_sorted x l' else x :: y :: l'
  end.

Definition sorted (l : list pystr) : list pystr := foldr insert_sorted [] l.

(** Line 48. *)
Definition all_species (df : DataFrame) : list pystr :=
  sorted (unique (dropna (col COMMON df))).

(** The options of the select box, line 49. *)
Definition species_options (df : DataFrame) : list pystr := [All] ++ all_species df.

(** ** Relations used to state how the pieces compose *)

(** The row [r] is the one the loop body builds from the feature [f]:
    [lat] and [lon] come from the coordinates (GeoJSON order: lon, lat),
    every other key reads as in the feature's properties. *)
Definition built_from (f : Feature) (r : Row) : Prop :=
  exists props c0 c1 cs,
    properties f = Some props
    /\ geometry f = Some (c0 :: c1 :: cs)
    /\ lat r = Some c1
    /\ lon r = Some c0
    /\ forall k, k <> lit "lat" -> k <> lit "lon" -> dict_get k r = dict_get k props.

(** [c'] asks for at least what [c] asks for: the same species (or [c]
    asks for none) and ranges inside those of [c]. *)
Definition narrower (c' c : FilterCriteria) : Prop :=
  (choice c = All \/ choice c' = choice c)
  /\ (fst (height_range c) <= fst (height_range c'))%Z
  /\ (snd (height_range c') <= snd (height_range c))%Z
  /\ (fst (diameter_range c) <= fst (diameter_range c'))%Z
  /\ (snd (diameter_range c') <= snd (diameter_range c))%Z.

(** ** The cache of [get_clean_data] (line 22)

    [st.cache_data(ttl=60*60)] keeps the value the function returned,
    stamped with the time of the call, and serves it while the clock is
    before the stamp plus the time to live; otherwise it runs the
    function again.  [network t] is what the request answers at time
    [t]; [requests] logs the times at which the function body ran. *)

Definition ttl : Q := 60 * 60.

Record CacheState : Type := mkCacheState {
  entry : option (Q * (DataFrame * option exn));
  requests : list Q
}.

Definition empty_cache : CacheState := {| entry := None; requests := [] |}.

Definition run_body (network : Q -> exn + Response) (now : Q) (st : CacheState)
    : (DataFrame * option exn) * CacheState :=
  let v := get_clean_data (network now) in
  (v, {| entry := Some (now, v); requests := requests st ++ [now] |}).

Definition cached_get_clean_data (network : Q -> exn + Response) (now : Q) (st : CacheState)
    : (DataFrame * option exn) * CacheState :=
  match entry st with
  | Some (stamp, v) =>
      if Qle_bool (stamp + ttl) now then run_body network now st else (v, st)
  | None => run_body network now st
  end.

(** The script run once per time of [times], in order. *)
Fixpoint reruns (network : Q -> exn + Response) (times : list Q) (st : CacheState)
    : list (DataFrame * option exn) * CacheState :=
  match times with
  | [] => ([], st)
  | now :: times' =>
      let '(v, st') := cached_get_clean_data network now st in
      let '(vs, st'') := reruns network times' st' in
      (v :: vs, st'')
  end.

(** ** What stops the script before the widgets are read

    In the order of lines 48-62: the species column is read, then the
    minimum and maximum of HEIGHT are passed through [int()], then those
    of DIAMETER. *)




(** A widget layer whose user keeps "All", the full ranges and the
    Markers mode. *)
Definition untouched (df : DataFrame) (bounds : (Z * Z) * (Z * Z)) : FilterCriteria * pystr :=
  ({| choice := All; height_range := fst bounds; diameter_range := snd bounds |}, lit "Markers").

(** ** Text of a feed *)

(** The keys and string values of the feature are made of characters. *)
Definition feature_text (f : Feature) : Prop :=
  match properties f with
  | Some props => Forall (fun kv => unicode_text (fst kv) /\ cell_text (snd kv)) props
  | None => True
  end
  /\ match geometry f with
     | Some coordinates => Forall cell_text coordinates
     | None => True
     end.

(** * Properties *)

(** ** Filter engine *)

Lemma filter_sublist {A} (p : A -> bool) (l : list A) :
  List.filter p l `sublist_of` l.
Proof.
  induction l as [|x l IH]; simpl.
  - constructor.
  - destruct (p x); [by apply sublist_skip_both || constructor | by constructor].
Qed.

Lemma elem_of_bool_filter {A} (p : A -> bool) (l : list A) (x : A) :
  x ∈ List.filter p l <-> x ∈ l /\ p x = true.
Proof. rewrite !list_elem_of_In. apply filter_In. Qed.

Lemma filter_filter_andb {A} (p q : A -> bool) (l : list A) :
  List.filter q (List.filter p l) = List.filter (fun x => p x && q x) l.
Proof.
  induction l as [|x l IH]; simpl; [done|].
  destruct (p x); simpl; [destruct (q x)|]; by rewrite ?IH.
Qed.

Lemma rows_species_filter df c :
  rows (species_filter df c) =
  List.filter (fun r => bool_decide (choice c = All) || species_mask c r) (rows df).
Proof.
  unfold species_filter. destruct (decide (choice c = All)) as [E|E].
  - rewrite (bool_decide_eq_false_2 (choice c ≠ All)) by (intros H; by apply H).
    rewrite (bool_decide_eq_true_2 _ E). simpl.
    induction (rows df) as [|x l IH]; simpl; [done|]. by rewrite <- IH.
  - rewrite (bool_decide_eq_true_2 _ E), (bool_decide_eq_false_2 _ E). done.
Qed.

Lemma rows_apply_filters df c :
  rows (apply_filters df c) = List.filter (keeps c) (rows df).
Proof.
  unfold apply_filters, keeps. simpl.
  rewrite rows_species_filter. simpl.
  rewrite !filter_filter_andb.
  apply filter_ext. intros r. by rewrite andb_assoc.
Qed.

Lemma columns_species_filter df c : columns (species_filter df c) = columns df.
Proof. unfold species_filter. by case_bool_decide. Qed.

Lemma columns_apply_filters df c : columns (apply_filters df c) = columns df.
Proof. unfold apply_filters. simpl. by rewrite columns_species_filter. Qed.

Lemma copy_id df : copy df = df.
Proof. by destruct df. Qed.

Lemma eq_str_true v s : eq_str v s = true <-> v = Some s.
Proof.
  destruct v as [t|]; simpl; [|split; discriminate].
  rewrite bool_decide_eq_true. split; congruence.
Qed.

Lemma within_int v lo hi :
  ge_int v lo && le_int v hi = true <->
  exists x, v = Some x /\ (inject_Z lo <= x)%Q /\ (x <= inject_Z hi)%Q.
Proof.
  destruct v as [x|]; simpl.
  - rewrite andb_true_iff, !Qle_bool_iff. split.
    + intros [? ?]. by exists x.
    + intros (y & [= <-] & ? & ?). done.
  - split; [discriminate|]. by intros (? & [=] & _).
Qed.

(** *** The block over the store *)

Lemma deref_alloc_spec (h : heap) (l : loc) (d : DataFrame) (f : DataFrame -> DataFrame) :
  h !! l = Some d ->
  (x <- deref l ;; alloc (f x)) h = Some (length h, h ++ [f d]).
Proof. intros E. unfold bind, deref, alloc. by rewrite E. Qed.

Lemma lookup_snoc_last (h : heap) (d : DataFrame) : (h ++ [d]) !! length h = Some d.
Proof. by rewrite lookup_app_r, Nat.sub_diag. Qed.

Lemma lookup_snoc_old (h : heap) (d o : DataFrame) (l : loc) :
  h !! l = Some o -> (h ++ [d]) !! l = Some o.
Proof. intros E. by rewrite lookup_app_l_Some with (x := o). Qed.

Lemma filter_block_spec (h : heap) (df : loc) (d : DataFrame) (c : FilterCriteria) :
  h !! df = Some d ->
  exists df_filtered h',
    filter_block df c h = Some (df_filtered, h')
    /\ (exists fresh, h' = h ++ fresh)
    /\ h' !! df_filtered = Some (apply_filters d c).
Proof.
  intros E. unfold filter_block, copy_obj, getitem_mask_obj.
  unfold bind at 1. rewrite (deref_alloc_spec h df d copy E).
  set (h1 := h ++ [copy d]).
  assert (E1 : h1 !! length h = Some (copy d)) by apply lookup_snoc_last.
  unfold bind at 1.
  destruct (decide (choice c = All)) as [EA|EA].
  - rewrite (bool_decide_eq_false_2 (choice c ≠ All)) by (intros H; by apply H).
    unfold ret at 1.
    unfold bind at 1.
    rewrite (deref_alloc_spec h1 _ _ (fun x => getitem_mask x (height_mask c)) E1).
    set (h2 := h1 ++ _).
    assert (E2 : h2 !! length h1 = Some (getitem_mask (copy d) (height_mask c)))
      by apply lookup_snoc_last.
    unfold bind at 1.
    rewrite (deref_alloc_spec h2 _ _ (fun x => getitem_mask x (diameter_mask c)) E2).
    unfold ret. eexists _, _. split; [reflexivity|]. split.
    + exists ([copy d] ++ [getitem_mask (copy d) (height_mask c)]
              ++ [getitem_mask (getitem_mask (copy d) (height_mask c)) (diameter_mask c)]).
      unfold h2, h1. by rewrite <- !app_assoc.
    + rewrite lookup_snoc_last. f_equal. unfold apply_filters, species_filter.
      by rewrite (bool_decide_eq_false_2 (choice c ≠ All)) by (intros H; by apply H).
  - rewrite (bool_decide_eq_true_2 (choice c ≠ All) EA).
    rewrite (deref_alloc_spec h1 _ _ (fun x => getitem_mask x (species_mask c)) E1).
    set (h2 := h1 ++ _).
    assert (E2 : h2 !! length h1 = Some (getitem_mask (copy d) (species_mask c)))
      by apply lookup_snoc_last.
    unfold bind at 1.
    rewrite (deref_alloc_spec h2 _ _ (fun x => getitem_mask x (height_mask c)) E2).
    set (h3 := h2 ++ _).
    assert (E3 : h3 !! length h2 =
                 Some (getitem_mask (getitem_mask (copy d) (species_mask c)) (height_mask c)))
      by apply lookup_snoc_last.
    unfold bind at 1.
    rewrite (deref_alloc_spec h3 _ _ (fun x => getitem_mask x (diameter_mask c)) E3).
    unfold ret. eexists _, _. split; [reflexivity|]. split.
    + eexists ([_] ++ [_] ++ [_] ++ [_]). unfold h3, h2, h1. by rewrite <- !app_assoc.
    + rewrite lookup_snoc_last. f_equal. unfold apply_filters, species_filter.
      by rewrite (bool_decide_eq_true_2 (choice c ≠ All) EA).
Qed.

(** C1: for every dataset and every criteria the filter's output is a
    subsequence of the input in the input's row order, and running the
    filter block leaves the input frame (and every other existing
    object) as it was: the block allocates new frames only. *)
Theorem filter_subsequence_input_untouched
    (h : heap) (df : loc) (d : DataFrame) (c : FilterCriteria) :
  h !! df = Some d ->
  exists df_filtered h',
    filter_block df c h = Some (df_filtered, h')
    /\ h' !! df = Some d
    /\ (forall l o, h !! l = Some o -> h' !! l = Some o)
    /\ exists out, h' !! df_filtered = Some out
         /\ out = apply_filters d c
         /\ rows out `sublist_of` rows d
         /\ columns out = columns d.
Proof.
  intros E.
  destruct (filter_block_spec h df d c E) as (l' & h' & Hrun & [fresh ->] & Hout).
  exists l', (h ++ fresh). split; [done|].
  assert (Hold : forall l o, h !! l = Some o -> (h ++ fresh) !! l = Some o).
  { intros l o El. by apply lookup_app_l_Some. }
  split; [by apply Hold|]. split; [done|].
  exists (apply_filters d c). split; [done|]. split; [done|]. split.
  - rewrite rows_apply_filters. apply filter_sublist.
  - apply columns_apply_filters.
Qed.

Lemma filter_subsequence_input_untouched_witness :
  exists df_filtered h',
    filter_block 0 oaks_only [sample] = Some (df_filtered, h')
    /\ h' !! 0%nat = Some sample
    /\ (forall l o, [sample] !! l = Some o -> h' !! l = Some o)
    /\ exists out, h' !! df_filtered = Some out
         /\ out = apply_filters sample oaks_only
         /\ rows out `sublist_of` rows sample
         /\ columns out = columns sample.
Proof.
  exact (filter_subsequence_input_untouched [sample] 0 sample oaks_only eq_refl).
Defined.

(** C3: a record passes the species selection if and only if the select
    box holds "All" or the record's COMMON is the very string selected
    (equality of code point sequences: case matters, nothing is fuzzy). *)
Theorem species_predicate (df : DataFrame) (c : FilterCriteria) (r : Row) :
  r ∈ rows (species_filter df c) <->
  r ∈ rows df /\ (choice c = All \/ COMMON r = Some (choice c)).
Proof.
  rewrite rows_species_filter, elem_of_bool_filter.
  rewrite orb_true_iff, bool_decide_eq_true. unfold species_mask.
  by rewrite eq_str_true.
Qed.

Lemma keeps_true (c : FilterCriteria) (r : Row) :
  keeps c r = true <->
  (choice c = All \/ COMMON r = Some (choice c))
  /\ (exists x, HEIGHT r = Some x
        /\ (inject_Z (fst (height_range c)) <= x)%Q /\ (x <= inject_Z (snd (height_range c)))%Q)
  /\ (exists y, DIAMETER r = Some y
        /\ (inject_Z (fst (diameter_range c)) <= y)%Q
        /\ (y <= inject_Z (snd (diameter_range c)))%Q).
Proof.
  unfold keeps. rewrite andb_true_iff, andb_true_iff.
  unfold height_mask, diameter_mask, species_mask.
  rewrite orb_true_iff, bool_decide_eq_true, eq_str_true, !within_int.
  tauto.
Qed.

(** C4: a record is in the filtered subset if and only if it is a record
    of the dataset that passes the species selection, whose height lies
    in the height range and whose diameter lies in the diameter range,
    both ends included; no record of the subset has a missing height or
    diameter. *)
Theorem filtered_iff_all_three (df : DataFrame) (c : FilterCriteria) (r : Row) :
  (r ∈ rows (apply_filters df c) <->
     r ∈ rows df
     /\ (choice c = All \/ COMMON r = Some (choice c))
     /\ (exists x, HEIGHT r = Some x
           /\ (inject_Z (fst (height_range c)) <= x)%Q
           /\ (x <= inject_Z (snd (height_range c)))%Q)
     /\ (exists y, DIAMETER r = Some y
           /\ (inject_Z (fst (diameter_range c)) <= y)%Q
           /\ (y <= inject_Z (snd (diameter_range c)))%Q))
  /\ ~ (r ∈ rows (apply_filters df c) /\ (HEIGHT r = None \/ DIAMETER r = None)).
Proof.
  rewrite rows_apply_filters, elem_of_bool_filter, keeps_true.
  split; [tauto|].
  intros [(_ & _ & (x & Hx & _) & (y & Hy & _)) [E|E]]; congruence.
Qed.

Example species_case_matters :
  rows (species_filter sample {| choice := lit "oak"; height_range := (0, 100)%Z;
                                 diameter_range := (0, 100)%Z |}) = []
  /\ rows (species_filter sample oaks_only) = [oak1; oak2]
  /\ rows (species_filter sample widest) = [oak1; pine; oak2].
Proof. repeat split; reflexivity. Qed.

Example bounds_are_inclusive :
  rows (apply_filters sample {| choice := All; height_range := (50, 60)%Z;
                                diameter_range := (20, 25)%Z |}) = [oak1; oak2].
Proof. reflexivity. Qed.

(** ** Dataset fetcher *)

Lemma loop_body_row_of (f : Feature) (acc : list Row) :
  match row_of f with
  | Some r => loop_body f acc = inr (acc ++ [r])
  | None => exists e, loop_body f acc = inl e
  end.
Proof.
  unfold row_of, loop_body.
  destruct (properties f) as [props|], (geometry f) as [[|c0 [|c1 cs]]|]; simpl; eauto.
Qed.

Lemma loop_mapM (fs : list Feature) (acc : list Row) :
  match mapM row_of fs with
  | Some rs => loop fs acc = inr (acc ++ rs)
  | None => exists e, loop fs acc = inl e
  end.
Proof.
  revert acc. induction fs as [|f fs IH]; intros acc; simpl.
  - by rewrite app_nil_r.
  - pose proof (loop_body_row_of f acc) as Hf.
    destruct (row_of f) as [r|]; simpl.
    + rewrite Hf. specialize (IH (acc ++ [r])).
      destruct (mapM row_of fs) as [rs|]; simpl; [|done].
      by rewrite IH, <- app_assoc.
    + destruct Hf as [e ->]. eauto.
Qed.

(** C2, as the code has it: no feature is dropped on its own.  When every
    feature of the response has a properties object and a geometry with
    two coordinates, the dataset holds one row per feature, in order,
    whatever the coordinates are (finite or not); as soon as one feature
    lacks them the whole fetch is given up: the dataset returned is the
    empty frame and the exception is reported. *)
Theorem fetch_all_or_nothing (fs : list Feature) :
  match mapM row_of fs with
  | Some rs => get_clean_data (response_of fs) = (pd_DataFrame rs, None)
  | None => exists e, get_clean_data (response_of fs) = (pd_DataFrame [], Some e)
  end.
Proof.
  unfold get_clean_data, response_of. simpl.
  pose proof (loop_mapM fs []) as H.
  destruct (mapM row_of fs) as [rs|].
  - by rewrite H.
  - destruct H as [e ->]. eauto.
Qed.

(** C2 fails as stated.  A feature without geometry is not dropped: it
    empties the dataset, and the well-formed feature of the same response
    is lost with it.  A feature with non-finite coordinates is not
    dropped either: its row is in the dataset. *)
Lemma malformed_not_dropped :
  well_formed good_feature = true
  /\ well_formed no_geometry_feature = false
  /\ rows (fst (get_clean_data (response_of [good_feature; no_geometry_feature]))) = []
  /\ snd (get_clean_data (response_of [good_feature; no_geometry_feature])) = Some TypeError
  /\ well_formed nan_feature = false
  /\ (exists r, row_of nan_feature = Some r
        /\ lat r = Some CNull /\ lon r = Some CNull
        /\ r ∈ rows (fst (get_clean_data (response_of [good_feature; nan_feature])))).
Proof.
  repeat split; try reflexivity.
  eexists. split; [reflexivity|]. repeat split; try reflexivity.
  vm_compute. apply list_elem_of_further, list_elem_of_here.
Qed.

(** ** Aggregator *)

Lemma add_keys_spec (ks acc : list pystr) :
  NoDup acc ->
  NoDup (add_keys ks acc) /\ forall x, x ∈ add_keys ks acc <-> x ∈ acc \/ x ∈ ks.
Proof.
  revert acc. induction ks as [|k ks IH]; intros acc Hacc; simpl.
  - split; [done|]. intros x. rewrite elem_of_nil. tauto.
  - case_bool_decide as Hk.
    + destruct (IH acc Hacc) as [Hnd Hin]. split; [done|].
      intros x. rewrite Hin, elem_of_cons. split; [tauto|].
      intros [?|[->|?]]; tauto.
    + assert (Hacc' : NoDup (acc ++ [k])).
      { apply NoDup_app. split; [done|]. split; [|apply NoDup_singleton].
        intros x Hx ->%list_elem_of_singleton. done. }
      destruct (IH _ Hacc') as [Hnd Hin]. split; [done|].
      intros x. rewrite Hin, elem_of_app, list_elem_of_singleton, elem_of_cons. tauto.
Qed.

Lemma add_keys_length (ks acc : list pystr) :
  length (add_keys ks acc) <= length acc + length ks.
Proof.
  revert acc. induction ks as [|k ks IH]; intros acc; simpl; [lia|].
  case_bool_decide.
  - specialize (IH acc). lia.
  - specialize (IH (acc ++ [k])). rewrite length_app in IH. simpl in IH. lia.
Qed.

Lemma unique_NoDup (l : list pystr) : NoDup (unique l).
Proof. apply add_keys_spec, NoDup_nil_2. Qed.

Lemma elem_of_unique (l : list pystr) (x : pystr) : x ∈ unique l <-> x ∈ l.
Proof.
  unfold unique. destruct (add_keys_spec l [] (NoDup_nil_2)) as [_ H].
  rewrite H, elem_of_nil. tauto.
Qed.

Lemma nunique_size (s : list (option pystr)) :
  nunique s = size (list_to_set (dropna s) : gset pystr).
Proof.
  unfold nunique. rewrite <- (size_list_to_set (C := gset pystr)) by apply unique_NoDup.
  f_equal. apply set_eq. intros x. by rewrite !elem_of_list_to_set, elem_of_unique.
Qed.

Lemma dropna_length {A} (s : list (option A)) : length (dropna s) <= length s.
Proof.
  induction s as [|[a|] s IH]; simpl; lia.
Qed.

Lemma nunique_le (s : list (option pystr)) : nunique s <= length s.
Proof.
  unfold nunique, unique.
  etransitivity; [apply add_keys_length|]. apply dropna_length.
Qed.

Lemma dropna_present {A} (l : list A) : dropna (Some <$> l) = l.
Proof. induction l as [|a l IH]; csimpl; [done|]. by rewrite IH. Qed.

Lemma elem_of_dropna {A} (s : list (option A)) (x : A) : x ∈ dropna s <-> Some x ∈ s.
Proof.
  induction s as [|[a|] s IH]; simpl.
  - by rewrite !elem_of_nil.
  - rewrite !elem_of_cons, IH. split; intros [E|?]; auto; left; congruence.
  - rewrite elem_of_cons, IH. split; [auto|]. by intros [?|?].
Qed.

Lemma series_mean_spec (s : list (option Q)) : is_mean_of (dropna s) (series_mean s).
Proof.
  unfold series_mean. destruct (dropna s) as [|x xs]; simpl; [done|].
  split; [done|].
  set (n := inject_Z (Z.of_nat (S (length xs)))).
  assert (Hn : ~ (n == 0)%Q).
  { unfold n, inject_Z, Qeq. simpl. lia. }
  field. exact Hn.
Qed.

Lemma series_mean_skips_missing (s : list (option Q)) :
  series_mean s = series_mean (Some <$> dropna s).
Proof. unfold series_mean. by rewrite dropna_present. Qed.

(** C5: the count is the number of rows of the subset; the species count
    is the number of distinct present COMMON values, hence at most the
    count; each average is the mean of the present values of its column
    (their sum over their number), unchanged by rows where the value is
    missing. *)
Theorem aggregator_metrics `{Host} (df_filtered : DataFrame) :
  total_trees (metrics df_filtered) = length (rows df_filtered)
  /\ species_count (metrics df_filtered)
     = size (list_to_set (dropna (col COMMON df_filtered)) : gset pystr)
  /\ species_count (metrics df_filtered) <= total_trees (metrics df_filtered)
  /\ avg_height (metrics df_filtered)
     = format_mean (series_mean (col HEIGHT df_filtered)) ++ lit " ft"
  /\ avg_diameter (metrics df_filtered)
     = format_mean (series_mean (col DIAMETER df_filtered)) ++ lit " in"
  /\ is_mean_of (dropna (col HEIGHT df_filtered)) (series_mean (col HEIGHT df_filtered))
  /\ is_mean_of (dropna (col DIAMETER df_filtered)) (series_mean (col DIAMETER df_filtered))
  /\ series_mean (col HEIGHT df_filtered)
     = series_mean (Some <$> dropna (col HEIGHT df_filtered))
  /\ series_mean (col DIAMETER df_filtered)
     = series_mean (Some <$> dropna (col DIAMETER df_filtered)).
Proof.
  split; [done|]. split; [apply nunique_size|]. split.
  { simpl. unfold len. etransitivity; [apply nunique_le|].
    unfold col. by rewrite length_map. }
  split; [done|]. split; [done|].
  split; [apply series_mean_spec|]. split; [apply series_mean_spec|].
  split; apply series_mean_skips_missing.
Qed.

(** C6: on the empty subset the means are the NaN sentinel (no division
    takes place, nothing is raised), the averages read "nan", and both
    counts are 0. *)
Theorem aggregator_empty_subset `{Host} (cols : list pystr) :
  series_mean (col HEIGHT (mkDataFrame cols [])) = None
  /\ series_mean (col DIAMETER (mkDataFrame cols [])) = None
  /\ metrics (mkDataFrame cols []) =
     {| total_trees := 0;
        species_count := 0;
        avg_height := lit "nan ft";
        avg_diameter := lit "nan in" |}.
Proof.
  assert (Hh : series_mean (col HEIGHT (mkDataFrame cols [])) = None) by reflexivity.
  assert (Hd : series_mean (col DIAMETER (mkDataFrame cols [])) = None) by reflexivity.
  split; [exact Hh|]. split; [exact Hd|].
  unfold metrics. rewrite Hh, Hd. reflexivity.
Qed.

Example scenario_oaks :
  rows (apply_filters sample oaks_only) = [oak1; oak2]
  /\ metrics (apply_filters sample oaks_only) =
     {| total_trees := 2;
        species_count := 1;
        avg_height := lit "55.0 ft";
        avg_diameter := lit "22.5 in" |}.
Proof. split; reflexivity. Qed.

Example scenario_out_of_range :
  let c := {| choice := All; height_range := (200, 300)%Z; diameter_range := (0, 100)%Z |} in
  rows (apply_filters sample c) = []
  /\ total_trees (metrics (apply_filters sample c)) = 0
  /\ avg_height (metrics (apply_filters sample c)) = lit "nan ft".
Proof. repeat split; reflexivity. Qed.

(** ** Visualization selector *)

Lemma for_each_inr {A} (body : Row -> exn + A) (rows : list Row) (out : list A) :
  for_each body rows = inr out <-> Forall2 (fun r a => body r = inr a) rows out.
Proof.
  revert out. induction rows as [|r rows IH]; intros out; simpl.
  - split; [intros [= <-]; constructor | by intros ->%Forall2_nil_inv_l].
  - split.
    + destruct (body r) as [e|a] eqn:Er; simpl; [discriminate|].
      destruct (for_each body rows) as [e|rest] eqn:Erest; simpl; [discriminate|].
      intros [= <-]. constructor; [done | by apply IH].
    + intros (a & rest & Ha & Hrest & ->)%Forall2_cons_inv_l.
      rewrite Ha. simpl. apply IH in Hrest. by rewrite Hrest.
Qed.

Lemma for_each_inl {A} (body : Row -> exn + A) (rows : list Row) (e : exn) :
  for_each body rows = inl e -> exists r, r ∈ rows /\ body r = inl e.
Proof.
  induction rows as [|r rows IH]; simpl; [discriminate|].
  destruct (body r) as [e'|a] eqn:Er; simpl.
  - intros [= <-]. exists r. split; [apply list_elem_of_here | done].
  - destruct (for_each body rows) as [e'|rest]; simpl; [|discriminate].
    intros [= <-]. destruct (IH eq_refl) as (r' & Hr' & E).
    exists r'. split; [by apply list_elem_of_further | done].
Qed.

(** A loop whose body can only raise [e] raises [e] as soon as the body
    raises on some row. *)
Lemma for_each_raises {A} (body : Row -> exn + A) (rows : list Row) (e : exn) (r : Row) :
  (forall r' e', body r' = inl e' -> e' = e) ->
  r ∈ rows -> body r = inl e -> for_each body rows = inl e.
Proof.
  intros Honly Hr Hbody.
  destruct (for_each body rows) as [e'|out] eqn:E.
  - destruct (for_each_inl body rows e' E) as (r' & _ & E'). by rewrite (Honly r' e' E').
  - apply for_each_inr in E. apply list_elem_of_lookup in Hr as [i Hi].
    destruct (Forall2_lookup_l _ _ _ _ _ E Hi) as (a & _ & Ha). congruence.
Qed.

Lemma coordinate_inl `{Host} (c : option cell) (e : exn) : coordinate c = inl e -> e = ValueError.
Proof.
  destruct c as [[s|x|]|]; simpl; try (by intros [= <-]); try discriminate.
  destruct (float_of_str s); simpl; [discriminate | by intros [= <-]].
Qed.

Lemma validate_location_inl `{Host} (row : Row) (e : exn) :
  validate_location row = inl e -> e = ValueError.
Proof.
  unfold validate_location.
  destruct (coordinate (lat row)) as [e1|la] eqn:E1; simpl.
  { intros [= <-]. by apply coordinate_inl in E1. }
  destruct (coordinate (lon row)) as [e2|lo] eqn:E2; simpl; [|discriminate].
  intros [= <-]. by apply coordinate_inl in E2.
Qed.

Lemma validate_location_located `{Host} (row : Row) (la lo : Q) :
  located row la lo -> validate_location row = inr (la, lo).
Proof. intros [Hla Hlo]. unfold validate_location. by rewrite Hla, Hlo. Qed.

Lemma validate_location_no_value `{Host} (row : Row) :
  no_value (lat row) \/ no_value (lon row) -> validate_location row = inl ValueError.
Proof.
  unfold validate_location. intros [[E|E]|[E|E]].
  1,2: by rewrite E.
  all: destruct (coordinate (lat row)) as [e|la] eqn:Ela; simpl;
    [by rewrite (coordinate_inl _ e Ela) | by rewrite E].
Qed.

(** The body of the two marker loops: the tooltip is composed, then the
    marker is built at the validated location. *)
Lemma marker_body_shows `{Host} (df : DataFrame) (row : Row) (m : CircleMarker) :
  (location <-! validate_location row ;;
   inr {| location := location;
          radius := 8;
          color := MAIN_COLOR;
          fill := true;
          fillOpacity := (8 # 10)%Q;
          tooltip :=
            lit "<b>" ++ str_item df (lit "COMMON") row
            ++ lit "</b><br>Height: " ++ str_item df (lit "HEIGHT") row
            ++ lit " ft<br>Diameter: " ++ str_item df (lit "DIAMETER") row
            ++ lit " in";
          sticky := true |}) = inr m ->
  forall la lo, located row la lo -> marker_shows df row m /\ location m = (la, lo).
Proof.
  intros Hm la lo Hloc. rewrite (validate_location_located row la lo Hloc) in Hm.
  simpl in Hm. injection Hm as <-. split; [|done].
  unfold marker_shows. cbn [location tooltip radius color fill sticky].
  split; [by exists la, lo|]. split; [done|].
  split; [|split; [|split; [|split]]].
  - exists (lit "<b>"). eexists. reflexivity.
  - exists (lit "<b>" ++ str_item df (lit "COMMON") row ++ lit "</b><br>Height: ").
    eexists. rewrite <- !app_assoc. reflexivity.
  - exists (lit "<b>" ++ str_item df (lit "COMMON") row ++ lit "</b><br>Height: "
            ++ str_item df (lit "HEIGHT") row ++ lit " ft<br>Diameter: ").
    exists (lit " in"). rewrite <- !app_assoc. reflexivity.
  - intros s Hs. unfold str_item. unfold COMMON, str_of in Hs.
    destruct (dict_get (lit "COMMON") row) as [[t|x|]|]; congruence.
  - done.
Qed.

Lemma marker_loops `{Host} (df : DataFrame) (rows : list Row) (locs : list (Q * Q)) :
  Forall2 (fun row p => located row (fst p) (snd p)) rows locs ->
  exists children,
    for_each (fun row =>
      let tooltip_html :=
        lit "<b>" ++ str_item df (lit "COMMON") row
        ++ lit "</b><br>Height: " ++ str_item df (lit "HEIGHT") row
        ++ lit " ft<br>Diameter: " ++ str_item df (lit "DIAMETER") row
        ++ lit " in" in
      location <-! validate_location row ;;
      inr {| location := location; radius := 8; color := MAIN_COLOR; fill := true;
             fillOpacity := (8 # 10)%Q; tooltip := tooltip_html; sticky := true |}) rows
    = inr children
    /\ for_each (fun row =>
      let tooltip_html :=
        lit "<b>" ++ str_item df (lit "COMMON") row
        ++ lit "</b><br>Height: " ++ str_item df (lit "HEIGHT") row
        ++ lit " ft<br>Diameter: " ++ str_item df (lit "DIAMETER") row
        ++ lit " in" in
      location <-! validate_location row ;;
      inr (Marker {| location := location; radius := 8; color := MAIN_COLOR; fill := true;
                     fillOpacity := (8 # 10)%Q; tooltip := tooltip_html; sticky := true |})) rows
      = inr (List.map Marker children)
    /\ Forall2 (marker_shows df) rows children
    /\ List.map location children = locs.
Proof.
  intros Hlocs. setoid_rewrite for_each_inr.
  induction Hlocs as [|row [la lo] rows locs Hloc _ (children & Ec & Em & Hshow & Hl)].
  - exists []. repeat split; constructor.
  - simpl in Hloc.
    pose proof (validate_location_located row la lo Hloc) as Hv.
    eexists (_ :: children).
    split; [|split; [|split]].
    + constructor; [|exact Ec]. cbv beta zeta. rewrite Hv. reflexivity.
    + cbn [List.map]. constructor; [|exact Em]. cbv beta zeta. rewrite Hv. reflexivity.
    + constructor; [|done].
      eapply (marker_body_shows df row); [|exact Hloc]. by rewrite Hv.
    + simpl. by rewrite Hl.
Qed.

Lemma heat_loop `{Host} (rows : list Row) (locs : list (Q * Q)) :
  Forall2 (fun row p => located row (fst p) (snd p)) rows locs ->
  for_each validate_location rows = inr locs.
Proof.
  intros Hl. apply for_each_inr. eapply Forall2_impl; [exact Hl|].
  intros row [la lo] Hloc. by apply validate_location_located.
Qed.

Lemma build_map_no_value `{Host} (map_type : pystr) (df : DataFrame) (row : Row) :
  row ∈ rows df -> no_value (lat row) \/ no_value (lon row) ->
  build_map map_type df = inl ValueError.
Proof.
  intros Hrow Hno. pose proof (validate_location_no_value row Hno) as Hv.
  unfold build_map, heatmap_branch, cluster_branch, markers_branch.
  repeat case_bool_decide.
  - rewrite (for_each_raises validate_location (rows df) ValueError row); try done.
    apply validate_location_inl.
  - erewrite (for_each_raises _ (rows df) ValueError row); [done| |done|].
    + intros r' e'. cbv zeta.
      destruct (validate_location r') as [e0|p] eqn:E0; simpl; [|discriminate].
      intros [= <-]. by apply validate_location_inl in E0.
    + cbv zeta. by rewrite Hv.
  - eapply (for_each_raises _ (rows df) ValueError row); [|done|].
    + intros r' e'. cbv zeta.
      destruct (validate_location r') as [e0|p] eqn:E0; simpl; [|discriminate].
      intros [= <-]. by apply validate_location_inl in E0.
    + cbv zeta. by rewrite Hv.
Qed.

(** C7, as the code has it.  On a subset all of whose records have finite
    coordinates: in heat map mode the payload is one (lat, lon) pair per
    record, in order, and holds no marker, hence no tooltip; in the
    Marker Cluster and Markers modes it is one marker per record, in
    order, at the record's coordinates, whose tooltip holds the record's
    species, height and diameter; the markers of the two modes are the
    same, only the layer they are added to differs.  On a subset with a
    record whose latitude or longitude holds no value no payload is
    built: in each of the three modes the map raises ValueError. *)
Theorem visualization_payload `{Host} (df_filtered : DataFrame) (locs : list (Q * Q)) :
  Forall2 (fun row p => located row (fst p) (snd p)) (rows df_filtered) locs ->
  build_map (lit "HeatMap") df_filtered = inr [HeatMap locs 15 10]
  /\ payload_points [HeatMap locs 15 10] = locs
  /\ payload_markers [HeatMap locs 15 10] = []
  /\ length locs = length (rows df_filtered)
  /\ (exists children,
        build_map (lit "Marker Cluster") df_filtered = inr [MarkerCluster children]
        /\ build_map (lit "Markers") df_filtered = inr (List.map Marker children)
        /\ payload_markers [MarkerCluster children] = children
        /\ payload_markers (List.map Marker children) = children
        /\ length children = length (rows df_filtered)
        /\ List.map location children = locs
        /\ Forall2 (marker_shows df_filtered) (rows df_filtered) children)
  /\ (forall df row, row ∈ rows df -> no_value (lat row) \/ no_value (lon row) ->
        build_map (lit "HeatMap") df = inl ValueError
        /\ build_map (lit "Marker Cluster") df = inl ValueError
        /\ build_map (lit "Markers") df = inl ValueError).
Proof.
  intros Hlocs.
  assert (Hheat : build_map (lit "HeatMap") df_filtered = heatmap_branch df_filtered) by done.
  assert (Hclus : build_map (lit "Marker Cluster") df_filtered = cluster_branch df_filtered)
    by done.
  assert (Hmark : build_map (lit "Markers") df_filtered = markers_branch df_filtered) by done.
  split; [|split; [|split; [|split; [|split]]]].
  - rewrite Hheat. unfold heatmap_branch. by rewrite (heat_loop _ locs Hlocs).
  - simpl. apply app_nil_r.
  - done.
  - symmetry. by eapply Forall2_length.
  - destruct (marker_loops df_filtered _ _ Hlocs) as (children & Ec & Em & Hshow & Hl).
    exists children. split.
    { rewrite Hclus. unfold cluster_branch.
      match goal with |- context [for_each ?b (rows df_filtered)] =>
        replace (for_each b (rows df_filtered)) with (inr children : exn + list CircleMarker)
          by (symmetry; exact Ec) end.
      done. }
    split; [rewrite Hmark; exact Em|].
    split; [apply app_nil_r|]. split.
    { clear. induction children as [|m ms IH]; simpl; [done|]. by rewrite IH. }
    split; [symmetry; by eapply Forall2_length|]. by split.
  - intros df row Hrow Hno. repeat split; by eapply build_map_no_value.
Qed.

Lemma visualization_payload_witness :
  build_map (lit "HeatMap") sample = inr [HeatMap sample_locations 15 10]
  /\ payload_points [HeatMap sample_locations 15 10] = sample_locations
  /\ payload_markers [HeatMap sample_locations 15 10] = []
  /\ length sample_locations = length (rows sample)
  /\ (exists children,
        build_map (lit "Marker Cluster") sample = inr [MarkerCluster children]
        /\ build_map (lit "Markers") sample = inr (List.map Marker children)
        /\ payload_markers [MarkerCluster children] = children
        /\ payload_markers (List.map Marker children) = children
        /\ length children = length (rows sample)
        /\ List.map location children = sample_locations
        /\ Forall2 (marker_shows sample) (rows sample) children)
  /\ (forall df row, row ∈ rows df -> no_value (lat row) \/ no_value (lon row) ->
        build_map (lit "HeatMap") df = inl ValueError
        /\ build_map (lit "Marker Cluster") df = inl ValueError
        /\ build_map (lit "Markers") df = inl ValueError).
Proof.
  apply (visualization_payload sample sample_locations).
  repeat constructor.
Defined.

Example sample_tooltip :
  match build_map (lit "Markers") sample with
  | inr (Marker m :: _) =>
      tooltip m = lit "<b>Oak</b><br>Height: 50.0 ft<br>Diameter: 20.0 in"
  | _ => False
  end.
Proof. vm_compute. reflexivity. Qed.

(** C7 fails as stated.  The subset fetched from a response that holds a
    feature with null coordinates has two records, one of them without
    latitude and longitude; in each of the three modes the map raises
    ValueError, so there is no payload with one entry per record. *)
Lemma nan_location_builds_no_payload :
  len with_nan_location = 2
  /\ (exists row, row ∈ rows with_nan_location /\ lat row = Some CNull /\ lon row = Some CNull)
  /\ build_map (lit "HeatMap") with_nan_location = inl ValueError
  /\ build_map (lit "Marker Cluster") with_nan_location = inl ValueError
  /\ build_map (lit "Markers") with_nan_location = inl ValueError.
Proof.
  split; [reflexivity|]. split.
  - eexists. split; [apply list_elem_of_further, list_elem_of_here|]. split; reflexivity.
  - repeat split; reflexivity.
Qed.

(** ** Slider bounds *)

Lemma fold_Qmin_spec (xs : list Q) (x : Q) :
  is_min_of (x :: xs) (fold_left Qmin xs x).
Proof.
  revert x. induction xs as [|y xs IH]; intros x; simpl.
  - split; [apply list_elem_of_here|].
    intros z ->%list_elem_of_singleton. apply Qle_refl.
  - destruct (IH (Qmin x y)) as [Hin Hle]. split.
    + apply elem_of_cons in Hin as [->|Hin].
      * unfold Qmin, GenericMinMax.gmin. destruct (x ?= y)%Q;
          first [apply list_elem_of_here | apply list_elem_of_further, list_elem_of_here].
      * by do 2 apply list_elem_of_further.
    + intros z Hz.
      assert (Hm : (fold_left Qmin xs (Qmin x y) <= Qmin x y)%Q)
        by apply Hle, list_elem_of_here.
      apply elem_of_cons in Hz as [->|Hz].
      * eapply Qle_trans; [exact Hm | apply Q.le_min_l].
      * apply elem_of_cons in Hz as [->|Hz].
        -- eapply Qle_trans; [exact Hm | apply Q.le_min_r].
        -- by apply Hle, list_elem_of_further.
Qed.

Lemma fold_Qmax_spec (xs : list Q) (x : Q) :
  is_max_of (x :: xs) (fold_left Qmax xs x).
Proof.
  revert x. induction xs as [|y xs IH]; intros x; simpl.
  - split; [apply list_elem_of_here|].
    intros z ->%list_elem_of_singleton. apply Qle_refl.
  - destruct (IH (Qmax x y)) as [Hin Hle]. split.
    + apply elem_of_cons in Hin as [->|Hin].
      * unfold Qmax, GenericMinMax.gmax. destruct (x ?= y)%Q;
          first [apply list_elem_of_here | apply list_elem_of_further, list_elem_of_here].
      * by do 2 apply list_elem_of_further.
    + intros z Hz.
      assert (Hm : (Qmax x y <= fold_left Qmax xs (Qmax x y))%Q)
        by apply Hle, list_elem_of_here.
      apply elem_of_cons in Hz as [->|Hz].
      * eapply Qle_trans; [apply Q.le_max_l | exact Hm].
      * apply elem_of_cons in Hz as [->|Hz].
        -- eapply Qle_trans; [apply Q.le_max_r | exact Hm].
        -- by apply Hle, list_elem_of_further.
Qed.

Lemma series_min_spec (s : list (option Q)) :
  dropna s <> [] -> exists m, series_min s = Some m /\ is_min_of (dropna s) m.
Proof.
  unfold series_min. destruct (dropna s) as [|x xs]; [done|]. intros _.
  eexists. split; [reflexivity | apply fold_Qmin_spec].
Qed.

Lemma series_max_spec (s : list (option Q)) :
  dropna s <> [] -> exists m, series_max s = Some m /\ is_max_of (dropna s) m.
Proof.
  unfold series_max. destruct (dropna s) as [|x xs]; [done|]. intros _.
  eexists. split; [reflexivity | apply fold_Qmax_spec].
Qed.

Lemma elem_of_col_dropna {A} (f : Row -> option A) (df : DataFrame) (r : Row) (x : A) :
  r ∈ rows df -> f r = Some x -> x ∈ dropna (col f df).
Proof.
  intros Hr Hx. apply elem_of_dropna. rewrite <- Hx. unfold col.
  apply list_elem_of_In, in_map, list_elem_of_In, Hr.
Qed.

Example sample_bounds :
  slider_bounds sample = inr ((50, 80)%Z, (20, 30)%Z)
  /\ rows (apply_filters sample {| choice := All; height_range := (50, 80)%Z;
                                   diameter_range := (20, 30)%Z |}) = rows sample.
Proof. split; reflexivity. Qed.

(** With no height present, [min()] is NaN and [int()] raises. *)
Example bounds_all_missing : slider_bounds (pd_DataFrame [unmeasured]) = inl ValueError.
Proof. reflexivity. Qed.

(** With no HEIGHT column at all, [df['HEIGHT']] raises KeyError. *)
Example bounds_no_column :
  slider_bounds (pd_DataFrame [[(lit "COMMON", CStr (lit "Oak"))]]) = inl KeyError.
Proof. reflexivity. Qed.

(** C9: the bounds offered are meant to be the dataset's observed minimum
    and maximum, with the full range as default, so that every record
    with present height and diameter is included.  The code misses this:
    it passes the maximum through [int()], which truncates.  In a dataset
    whose tallest tree measures 80.5 ft the upper height bound is 80, not
    the observed maximum, and with "All" and the default ranges that
    tree, whose height and diameter are present, is not in the filtered
    subset. *)
Lemma fractional_maximum_excluded :
  series_max (col HEIGHT with_fir) = Some (161 # 2)%Q
  /\ slider_bounds with_fir = inr ((50, 80)%Z, (20, 30)%Z)
  /\ ~ (inject_Z 80 == 161 # 2)%Q
  /\ default_criteria with_fir =
       inr {| choice := All; height_range := (50, 80)%Z; diameter_range := (20, 30)%Z |}
  /\ fir ∈ rows with_fir
  /\ HEIGHT fir = Some (161 # 2)%Q
  /\ DIAMETER fir = Some 30%Q
  /\ fir ∉ rows (apply_filters with_fir
                   {| choice := All; height_range := (50, 80)%Z; diameter_range := (20, 30)%Z |}).
Proof.
  split; [reflexivity|]. split; [reflexivity|]. split; [by vm_compute|].
  split; [reflexivity|]. split; [apply list_elem_of_further, list_elem_of_here|].
  split; [reflexivity|]. split; [reflexivity|].
  rewrite rows_apply_filters, elem_of_bool_filter. intros [_ H]. by vm_compute in H.
Qed.

(** ** Missing measurements *)

Lemma DataFrame_eq (a b : DataFrame) :
  columns a = columns b -> rows a = rows b -> a = b.
Proof. destruct a, b. simpl. by intros -> ->. Qed.

Lemma keeps_measured (c : FilterCriteria) (r : Row) : keeps c r = true -> measured r = true.
Proof.
  rewrite keeps_true. intros (_ & (x & Hx & _) & (y & Hy & _)).
  unfold measured. rewrite Hx, Hy. done.
Qed.

Lemma apply_filters_without_missing (df : DataFrame) (c : FilterCriteria) :
  apply_filters (without_missing df) c = apply_filters df c.
Proof.
  apply DataFrame_eq.
  - by rewrite !columns_apply_filters.
  - rewrite !rows_apply_filters. unfold without_missing. simpl.
    rewrite filter_filter_andb. apply filter_ext. intros r.
    destruct (keeps c r) eqn:E.
    + by rewrite (keeps_measured c r E).
    + apply andb_false_r.
Qed.

(** C10: a record whose height or diameter is missing is in no filtered
    subset, whatever the criteria (the "All" species and ranges as wide
    as one likes included); what the page shows (the count, the map
    payload, the statistics, the export) is what it would show had the
    dataset never held the records with a missing height or diameter. *)
Theorem missing_measure_never_shown `{Host}
    (df : DataFrame) (c : FilterCriteria) (map_type : pystr) (r : Row) :
  HEIGHT r = None \/ DIAMETER r = None ->
  (r ∉ rows (apply_filters df c))
  /\ (r ∉ rows (without_missing df))
  /\ apply_filters df c = apply_filters (without_missing df) c
  /\ render df c map_type = render (without_missing df) c map_type.
Proof.
  intros Hr. split; [|split; [|split]].
  - rewrite rows_apply_filters, elem_of_bool_filter. intros [_ Hk].
    apply keeps_true in Hk as (_ & (x & Hx & _) & (y & Hy & _)).
    destruct Hr; congruence.
  - unfold without_missing. simpl. rewrite elem_of_bool_filter. intros [_ Hk].
    unfold measured in Hk. apply andb_true_iff in Hk as [H1 H2].
    apply bool_decide_eq_true in H1 as [x Hx], H2 as [y Hy].
    destruct Hr; congruence.
  - symmetry. apply apply_filters_without_missing.
  - unfold render. by rewrite apply_filters_without_missing.
Qed.

Lemma missing_measure_never_shown_witness :
  (unmeasured ∉ rows (apply_filters with_unmeasured widest))
  /\ (unmeasured ∉ rows (without_missing with_unmeasured))
  /\ apply_filters with_unmeasured widest = apply_filters (without_missing with_unmeasured) widest
  /\ render with_unmeasured widest (lit "Markers")
     = render (without_missing with_unmeasured) widest (lit "Markers").
Proof.
  apply (missing_measure_never_shown with_unmeasured widest (lit "Markers") unmeasured).
  left. reflexivity.
Defined.

(** ** Exporter *)

(** *** UTF-8: what is encoded decodes to the text *)

Ltac arith := (zify; Z.to_euclidean_division_equations; lia).

Ltac ntest :=
  unfold continuation, is_surrogate in *;
  repeat first
    [ rewrite (proj2 (N.ltb_lt _ _)) by arith
    | rewrite (proj2 (N.ltb_ge _ _)) by arith
    | rewrite (proj2 (N.leb_le _ _)) by arith
    | rewrite (proj2 (N.leb_gt _ _)) by arith ];
  cbn [andb negb orb].

Lemma decode_encode_char (c : N) (bs rest : list N) :
  encode_char c = inr bs ->
  decode_utf8 (bs ++ rest) = cons c <$> decode_utf8 rest.
Proof.
  unfold encode_char.
  destruct (N.ltb_spec c 128) as [H1|H1].
  { intros [= <-]. cbn [app decode_utf8]. by ntest. }
  destruct (N.ltb_spec c 2048) as [H2|H2].
  { intros [= <-]. cbn [app decode_utf8]. ntest.
    do 2 f_equal. arith. }
  destruct (N.ltb_spec c 65536) as [H3|H3].
  { destruct (is_surrogate c) eqn:Hs; [discriminate|].
    intros [= <-]. cbn [app decode_utf8].
    assert (Hc : ((224 + c / 4096 - 224) * 4096 + (128 + (c / 64) mod 64 - 128) * 64
                  + (128 + c mod 64 - 128) = c)%N) by arith.
    rewrite Hc, Hs. by ntest. }
  destruct (N.ltb_spec c 1114112) as [H4|H4]; [|discriminate].
  intros [= <-]. cbn [app decode_utf8].
  assert (Hc : ((240 + c / 262144 - 240) * 262144 + (128 + (c / 4096) mod 64 - 128) * 4096
                + (128 + (c / 64) mod 64 - 128) * 64 + (128 + c mod 64 - 128) = c)%N) by arith.
  rewrite Hc. by ntest.
Qed.

Lemma encode_char_scalar (c : N) :
  scalar_value c -> exists bs, encode_char c = inr bs /\ Forall is_byte bs.
Proof.
  intros [Hlt Hs]. unfold encode_char. rewrite Hs.
  destruct (N.ltb_spec c 128); [|destruct (N.ltb_spec c 2048); [|destruct (N.ltb_spec c 65536)]].
  4: rewrite (proj2 (N.ltb_lt _ _)) by done.
  all: eexists; split; [reflexivity|]; unfold is_byte; repeat constructor; arith.
Qed.

Lemma encode_utf8_total (s : pystr) :
  unicode_text s ->
  exists bs, encode_utf8 s = inr bs /\ Forall is_byte bs /\ decode_utf8 bs = Some s.
Proof.
  induction 1 as [|c s Hc Hs (bs' & E' & B' & D')]; simpl.
  - exists []. by repeat split.
  - destruct (encode_char_scalar c Hc) as (bs & E & B).
    rewrite E, E'. exists (bs ++ bs'). split; [done|]. split.
    + by apply Forall_app_2.
    + by rewrite (decode_encode_char c bs bs' E), D'.
Qed.

Lemma encode_char_surrogate (c : N) :
  is_surrogate c = true -> encode_char c = inl UnicodeEncodeError.
Proof.
  intros Hs. unfold encode_char. rewrite Hs.
  unfold is_surrogate in Hs. apply andb_true_iff in Hs as [Hlo Hhi].
  apply N.leb_le in Hlo, Hhi.
  rewrite (proj2 (N.ltb_ge c 128)) by lia.
  rewrite (proj2 (N.ltb_ge c 2048)) by lia.
  by rewrite (proj2 (N.ltb_lt c 65536)) by lia.
Qed.

(** *** The text of the export is made of characters *)

Lemma ascii_unicode (s : pystr) : ascii_text s -> unicode_text s.
Proof.
  intros Hs. eapply Forall_impl; [exact Hs|]. intros c Hc. simpl in Hc. split; [lia|].
  unfold is_surrogate. rewrite (proj2 (N.leb_gt 55296 c)) by lia. done.
Qed.

Lemma scalar_QUOTE : scalar_value QUOTE.
Proof. by split. Qed.

Lemma scalar_COMMA : scalar_value COMMA.
Proof. by split. Qed.

Lemma csv_quote_text (s : pystr) : unicode_text s -> unicode_text (csv_quote s).
Proof.
  intros Hs. unfold csv_quote, unicode_text.
  apply Forall_app_2; [constructor; [apply scalar_QUOTE | constructor]|].
  apply Forall_app_2; [|constructor; [apply scalar_QUOTE | constructor]].
  induction Hs as [|c s Hc Hs IH]; simpl; [constructor|].
  apply Forall_app_2; [|done].
  destruct (c =? QUOTE)%N.
  - constructor; [apply scalar_QUOTE|]. constructor; [apply scalar_QUOTE | constructor].
  - constructor; [done | constructor].
Qed.

Lemma csv_field_text `{Host} (s : pystr) : unicode_text s -> unicode_text (csv_field s).
Proof. intros Hs. unfold csv_field. destruct (existsb _ _); [by apply csv_quote_text | done]. Qed.

Lemma dict_get_elem (k : pystr) (r : Row) (v : cell) :
  dict_get k r = Some v -> exists k', (k', v) ∈ r.
Proof.
  induction r as [|[k' v'] r IH]; simpl; [discriminate|].
  case_bool_decide.
  - intros [= ->]. exists k'. apply list_elem_of_here.
  - intros Hv. destruct (IH Hv) as [k'' Hin]. exists k''. by apply list_elem_of_further.
Qed.

Lemma csv_cell_text `{Host} (name : pystr) (r : Row) :
  Forall (fun kv => cell_text (snd kv)) r -> unicode_text (csv_cell (dict_get name r)).
Proof.
  intros Hr. unfold csv_cell. apply csv_field_text.
  destruct (dict_get name r) as [v|] eqn:E; simpl; [|constructor].
  destruct (dict_get_elem _ _ _ E) as [k' Hin].
  rewrite Forall_forall in Hr. specialize (Hr _ Hin). simpl in Hr.
  destruct v as [s|x|]; simpl.
  - done.
  - apply ascii_unicode, csv_float_ascii.
  - constructor.
Qed.

Lemma join_text (sep : pystr) (fields : list pystr) :
  unicode_text sep -> Forall unicode_text fields -> unicode_text (join sep fields).
Proof.
  intros Hsep Hf. induction Hf as [|f fs Hf Hfs IH]; simpl; [constructor|].
  destruct fs as [|g fs]; [done|].
  apply Forall_app_2; [done|]. by apply Forall_app_2.
Qed.

Lemma csv_record_text `{Host} (fields : list pystr) :
  Forall unicode_text fields -> unicode_text (csv_record fields).
Proof.
  intros Hf.
  assert (Hsep : unicode_text linesep) by apply ascii_unicode, linesep_ascii.
  assert (Hj : unicode_text (join [COMMA] fields ++ linesep)).
  { apply Forall_app_2; [|done]. apply join_text; [|done].
    constructor; [apply scalar_COMMA | constructor]. }
  unfold csv_record. destruct fields as [|[|c f] [|g fs]]; try done.
  apply Forall_app_2; [|done].
  constructor; [apply scalar_QUOTE|]. constructor; [apply scalar_QUOTE | constructor].
Qed.

Lemma to_csv_text `{Host} (df : DataFrame) : frame_text df -> unicode_text (to_csv df).
Proof.
  intros [Hcols Hrows]. unfold to_csv. apply Forall_app_2.
  - apply csv_record_text. unfold csv_header.
    induction Hcols; simpl; constructor; [by apply csv_field_text | done].
  - induction Hrows as [|r rs Hr Hrs IH]; simpl; [constructor|].
    apply Forall_app_2; [|done]. apply csv_record_text.
    clear -Hr. induction (columns df) as [|name names IH]; simpl; constructor;
      [by apply csv_cell_text | done].
Qed.

Lemma to_csv_records `{Host} (df : DataFrame) : to_csv df = concat (csv_records df).
Proof.
  unfold to_csv, csv_records. simpl. f_equal.
  induction (rows df) as [|r rs IH]; simpl; [done|]. by rewrite IH.
Qed.

Lemma frame_text_filters (df : DataFrame) (c : FilterCriteria) :
  frame_text df -> frame_text (apply_filters df c).
Proof.
  intros [Hcols Hrows]. split.
  - by rewrite columns_apply_filters.
  - rewrite rows_apply_filters. rewrite Forall_forall in Hrows |- *.
    intros r [Hr _]%elem_of_bool_filter. by apply Hrows.
Qed.

(** *** Reading back what the writer wrote *)

Lemma read_plain (f cur rest : pystr) :
  (forall c, c ∈ f -> (c =? COMMA)%N = false /\ (c =? QUOTE)%N = false) ->
  read_fields Plain cur (f ++ COMMA :: rest) = cons (cur ++ f) <$> read_fields AtStart [] rest
  /\ read_fields Plain cur f = Some [cur ++ f].
Proof.
  revert cur. induction f as [|c f IH]; intros cur Hf.
  - rewrite app_nil_r. split; reflexivity.
  - destruct (Hf c (list_elem_of_here _ _)) as [Hc Hq].
    destruct (IH (cur ++ [c])) as [IH1 IH2].
    { intros d Hd. by apply Hf, list_elem_of_further. }
    cbn [app read_fields]. rewrite Hc, Hq, IH1, IH2, <- !app_assoc. split; reflexivity.
Qed.

Lemma read_start_plain (f rest : pystr) :
  (forall c, c ∈ f -> (c =? COMMA)%N = false /\ (c =? QUOTE)%N = false) ->
  read_fields AtStart [] (f ++ COMMA :: rest) = cons f <$> read_fields AtStart [] rest
  /\ read_fields AtStart [] f = Some [f].
Proof.
  destruct f as [|c f]; intros Hf; [split; reflexivity|].
  destruct (Hf c (list_elem_of_here _ _)) as [Hc Hq].
  destruct (read_plain f [c] rest) as [H1 H2].
  { intros d Hd. by apply Hf, list_elem_of_further. }
  cbn [app read_fields]. rewrite Hc, Hq. by split.
Qed.

Lemma read_quoted (f cur rest : pystr) :
  read_fields Quoted cur
    (flat_map (fun c => if (c =? QUOTE)%N then [QUOTE; QUOTE] else [c]) f
     ++ QUOTE :: COMMA :: rest)
  = cons (cur ++ f) <$> read_fields AtStart [] rest
  /\ read_fields Quoted cur
       (flat_map (fun c => if (c =? QUOTE)%N then [QUOTE; QUOTE] else [c]) f ++ [QUOTE])
     = Some [cur ++ f].
Proof.
  revert cur. induction f as [|c f IH]; intros cur.
  - rewrite app_nil_r. split; reflexivity.
  - destruct (IH (cur ++ [c])) as [IH1 IH2]. cbn [flat_map].
    destruct (N.eqb_spec c QUOTE) as [->|Hc].
    + cbn [app read_fields]. change (QUOTE =? QUOTE)%N with true. cbn iota.
      rewrite IH1, IH2, <- !app_assoc. split; reflexivity.
    + apply N.eqb_neq in Hc. cbn [app read_fields]. rewrite Hc.
      rewrite IH1, IH2, <- !app_assoc. split; reflexivity.
Qed.

Lemma read_field `{Host} (f rest : pystr) :
  read_fields AtStart [] (csv_field f ++ COMMA :: rest) = cons f <$> read_fields AtStart [] rest
  /\ read_fields AtStart [] (csv_field f) = Some [f].
Proof.
  unfold csv_field. destruct (existsb csv_special f) eqn:E.
  - unfold csv_quote. destruct (read_quoted f [] rest) as [H1 H2].
    rewrite <- !app_assoc. cbn [app read_fields].
    change (QUOTE =? QUOTE)%N with true. cbn iota. by split.
  - apply read_start_plain. intros c Hc.
    assert (Hs : csv_special c = false).
    { revert E Hc. clear. induction f as [|d f IH]; simpl.
      - intros _ Hc. by apply elem_of_nil in Hc.
      - intros [Hd Hf]%orb_false_iff [->|Hc]%elem_of_cons; auto. }
    unfold csv_special in Hs. apply orb_false_iff in Hs as [Hs _].
    by apply orb_false_iff in Hs.
Qed.

Lemma read_join `{Host} (raw : list pystr) :
  raw <> [] -> read_fields AtStart [] (join [COMMA] (List.map csv_field raw)) = Some raw.
Proof.
  induction raw as [|f raw IH]; [done|]. intros _.
  destruct raw as [|g raw].
  - cbn [List.map join]. apply (proj2 (read_field f [])).
  - change (join [COMMA] (List.map csv_field (f :: g :: raw)))
      with (csv_field f ++ COMMA :: join [COMMA] (List.map csv_field (g :: raw))).
    rewrite (proj1 (read_field f _)), IH by done. reflexivity.
Qed.

(** What [csv_record] writes is a body followed by the line terminator,
    and the body reads back as the fields written. *)
Lemma read_csv_record `{Host} (raw : list pystr) :
  exists body,
    csv_record (List.map csv_field raw) = body ++ linesep /\ read_record body = Some raw.
Proof.
  destruct raw as [|f [|g raw]].
  - exists []. split; reflexivity.
  - cbn [List.map]. destruct (csv_field f) as [|c body'] eqn:Ef.
    + assert (f = []) as ->.
      { unfold csv_field in Ef. destruct (existsb csv_special f); [discriminate | done]. }
      exists [QUOTE; QUOTE]. split; reflexivity.
    + exists (c :: body'). split; [reflexivity|].
      unfold read_record. rewrite <- Ef. apply (proj2 (read_field f [])).
  - exists (join [COMMA] (List.map csv_field (f :: g :: raw))). split.
    + cbn [List.map]. unfold csv_record. by destruct (csv_field f).
    + pose proof (read_join (f :: g :: raw)) as Hj.
      destruct (join [COMMA] (List.map csv_field (f :: g :: raw))) as [|c b] eqn:Ej.
      * exfalso. revert Ej. cbn [List.map join].
        destruct (List.map csv_field raw); intros Ej;
          apply (f_equal length) in Ej; rewrite !length_app in Ej; simpl in Ej; lia.
      * unfold read_record. by apply Hj.
Qed.

Lemma csv_row_fields `{Host} (df : DataFrame) (r : Row) :
  csv_row df r
  = csv_record (List.map csv_field
      (List.map (fun name => cell_string (dict_get name r)) (columns df))).
Proof. unfold csv_row, csv_cell. by rewrite map_map. Qed.

Lemma rows_read_back `{Host} (df : DataFrame) (rs : list Row) :
  exists bodies,
    flat_map (csv_row df) rs = concat (List.map (fun b => b ++ linesep) bodies)
    /\ Forall2 (fun body fields => read_record body = Some fields) bodies
         (List.map (fun r => List.map (fun name => cell_string (dict_get name r)) (columns df)) rs).
Proof.
  induction rs as [|r rs (bodies & Et & Hb)].
  - exists []. split; [done | constructor].
  - destruct (read_csv_record
                (List.map (fun name => cell_string (dict_get name r)) (columns df)))
      as (body & Eb & Hr).
    exists (body :: bodies). split.
    + cbn [flat_map List.map concat]. by rewrite csv_row_fields, Eb, Et.
    + cbn [List.map]. by constructor.
Qed.

(** C8, as the code has it: for every subset of a dataset whose strings
    are made of characters (Unicode scalar values: no unpaired
    surrogate) the export succeeds and is the UTF-8 encoding of the CSV
    text (bytes that decode to it); the text is a sequence of records,
    each followed by the line terminator; the first record reads back as
    the dataset's column names, in the dataset's column order, and the
    others, one per row of the subset and in its order, read back as the
    texts of the row's cells in that same column order; for the empty
    subset the text is the header record alone. *)
Theorem export_csv_utf8 `{Host} (df : DataFrame) (c : FilterCriteria) :
  frame_text df ->
  exists bytes bodies,
    csv_bytes (apply_filters df c) = inr bytes
    /\ Forall is_byte bytes
    /\ decode_utf8 bytes = Some (concat (List.map (fun b => b ++ linesep) bodies))
    /\ Forall2 (fun body fields => read_record body = Some fields) bodies
         (columns df
          :: List.map (fun r => List.map (fun name => cell_string (dict_get name r)) (columns df))
               (rows (apply_filters df c)))
    /\ (rows (apply_filters df c) = [] -> length bodies = 1).
Proof.
  intros Hdf.
  pose proof (to_csv_text _ (frame_text_filters df c Hdf)) as Htext.
  destruct (encode_utf8_total _ Htext) as (bytes & E & B & D).
  destruct (read_csv_record (columns df)) as (head & Eh & Hh).
  destruct (rows_read_back (apply_filters df c) (rows (apply_filters df c)))
    as (bodies & Et & Hb).
  rewrite columns_apply_filters in Hb.
  exists bytes, (head :: bodies).
  assert (Ecsv : to_csv (apply_filters df c)
                 = concat (List.map (fun b => b ++ linesep) (head :: bodies))).
  { unfold to_csv, csv_header. rewrite columns_apply_filters, Eh, Et. reflexivity. }
  split; [done|]. split; [done|]. split; [by rewrite <- Ecsv|].
  split; [by constructor|].
  intros Hempty. rewrite Hempty in Hb. apply Forall2_nil_inv_r in Hb. by rewrite Hb.
Qed.

Lemma sample_text : frame_text sample.
Proof.
  split; repeat (constructor; simpl; try exact I); split; reflexivity.
Defined.

Lemma export_csv_utf8_witness :
  exists bytes bodies,
    csv_bytes (apply_filters sample oaks_only) = inr bytes
    /\ Forall is_byte bytes
    /\ decode_utf8 bytes = Some (concat (List.map (fun b => b ++ linesep) bodies))
    /\ Forall2 (fun body fields => read_record body = Some fields) bodies
         (columns sample
          :: List.map
               (fun r => List.map (fun name => cell_string (dict_get name r)) (columns sample))
               (rows (apply_filters sample oaks_only)))
    /\ (rows (apply_filters sample oaks_only) = [] -> length bodies = 1).
Proof.
  exact (export_csv_utf8 sample oaks_only sample_text).
Defined.

Example export_oaks :
  to_csv (apply_filters sample oaks_only) =
  lit "COMMON,HEIGHT,DIAMETER,lat,lon" ++ [10%N]
  ++ lit "Oak,50.0,20.0,45.5,-122.6" ++ [10%N]
  ++ lit "Oak,60.0,25.0,45.5,-122.6" ++ [10%N].
Proof. reflexivity. Qed.

Example export_header_only :
  let c := {| choice := All; height_range := (200, 300)%Z; diameter_range := (0, 100)%Z |} in
  csv_bytes (apply_filters sample c) = inr (lit "COMMON,HEIGHT,DIAMETER,lat,lon" ++ [10%N]).
Proof. reflexivity. Qed.

(** C8 fails as stated.  The dataset fetched from a response with a
    property whose name is an unpaired surrogate cannot be exported:
    encoding raises UnicodeEncodeError for the subset that holds its
    record and for the empty subset alike, whose header has that name. *)
Lemma surrogate_name_not_exported :
  snd (get_clean_data (response_of [surrogate_feature])) = None
  /\ len (apply_filters (fst (get_clean_data (response_of [surrogate_feature]))) widest) = 1
  /\ csv_bytes (apply_filters (fst (get_clean_data (response_of [surrogate_feature]))) widest)
     = inl UnicodeEncodeError
  /\ rows (apply_filters (fst (get_clean_data (response_of [surrogate_feature])))
             {| choice := All; height_range := (200, 300)%Z; diameter_range := (0, 100)%Z |})
     = []
  /\ csv_bytes (apply_filters (fst (get_clean_data (response_of [surrogate_feature])))
                  {| choice := All; height_range := (200, 300)%Z; diameter_range := (0, 100)%Z |})
     = inl UnicodeEncodeError.
Proof. repeat split; reflexivity. Qed.

(** * Further properties of the code *)

(** ** Dicts and frames built from them *)

Lemma dict_get_set_eq (k : pystr) (v : cell) (d : Row) :
  dict_get k (dict_set k v d) = Some v.
Proof.
  induction d as [|[k' v'] d IH]; cbn [dict_set dict_get].
  - by case_bool_decide.
  - case_bool_decide as E; cbn [dict_get]; by case_bool_decide.
Qed.

Lemma dict_get_set_ne (k k' : pystr) (v : cell) (d : Row) :
  k' <> k -> dict_get k' (dict_set k v d) = dict_get k' d.
Proof.
  intros Hne. induction d as [|[k0 v0] d IH]; cbn [dict_set dict_get].
  - case_bool_decide; congruence.
  - case_bool_decide as E; cbn [dict_get].
    + subst k0. repeat case_bool_decide; congruence.
    + case_bool_decide; [done | apply IH].
Qed.

Lemma dict_keys_set (k : pystr) (v : cell) (d : Row) :
  dict_keys (dict_set k v d) =
  if bool_decide (k ∈ dict_keys d) then dict_keys d else dict_keys d ++ [k].
Proof.
  unfold dict_keys. induction d as [|[k' v'] d IH]; cbn [dict_set List.map fst].
  - rewrite bool_decide_eq_false_2; [done | apply not_elem_of_nil].
  - destruct (decide (k' = k)) as [->|E].
    + rewrite (bool_decide_eq_true_2 (k = k)) by done. cbn [List.map fst].
      rewrite bool_decide_eq_true_2; [done | apply list_elem_of_here].
    + rewrite (bool_decide_eq_false_2 (k' = k)) by done. cbn [List.map fst].
      rewrite IH. destruct (decide (k ∈ List.map fst d)) as [Hin|Hin].
      * rewrite (bool_decide_eq_true_2 _ Hin).
        rewrite bool_decide_eq_true_2; [done | by apply list_elem_of_further].
      * rewrite (bool_decide_eq_false_2 _ Hin).
        rewrite bool_decide_eq_false_2; [done|].
        intros [?|?]%elem_of_cons; congruence.
Qed.

(** X1: storing under a key and reading it back gives the value stored;
    the other keys read as before; a key already there keeps its place in
    the dict's order and a new key goes last. *)
Theorem dict_store_then_read (k : pystr) (v : cell) (d : Row) :
  dict_get k (dict_set k v d) = Some v
  /\ (forall k', k' <> k -> dict_get k' (dict_set k v d) = dict_get k' d)
  /\ dict_keys (dict_set k v d) =
     (if bool_decide (k ∈ dict_keys d) then dict_keys d else dict_keys d ++ [k]).
Proof.
  split; [apply dict_get_set_eq|]. split; [|apply dict_keys_set].
  intros k' Hne. by apply dict_get_set_ne.
Qed.

Lemma add_keys_from (ks acc : list pystr) : exists new, add_keys ks acc = acc ++ new.
Proof.
  revert acc. induction ks as [|k ks IH]; intros acc; simpl.
  - exists []. by rewrite app_nil_r.
  - case_bool_decide; [apply IH|].
    destruct (IH (acc ++ [k])) as [new ->]. exists ([k] ++ new). by rewrite <- app_assoc.
Qed.

Lemma union_keys_fold (ds : list Row) (acc : list pystr) :
  NoDup acc ->
  NoDup (fold_left (fun acc d => add_keys (dict_keys d) acc) ds acc)
  /\ forall k, k ∈ fold_left (fun acc d => add_keys (dict_keys d) acc) ds acc
               <-> k ∈ acc \/ exists d, d ∈ ds /\ k ∈ dict_keys d.
Proof.
  revert acc. induction ds as [|d ds IH]; intros acc Hacc; simpl.
  - split; [done|]. intros k. split; [by left|].
    intros [?|(d & Hd & _)]; [done|]. by apply elem_of_nil in Hd.
  - destruct (add_keys_spec (dict_keys d) acc Hacc) as [Hnd Hin].
    destruct (IH _ Hnd) as [Hnd' Hin']. split; [done|].
    intros k. rewrite Hin', Hin. split.
    + intros [[?|?]|(d' & Hd' & Hk)]; [by left| |].
      * right. exists d. split; [apply list_elem_of_here | done].
      * right. exists d'. split; [by apply list_elem_of_further | done].
    + intros [?|(d' & Hd' & Hk)]; [by left; left|].
      apply elem_of_cons in Hd' as [->|Hd']; [by left; right|].
      right. by exists d'.
Qed.

(** X2: the column index of a frame built from a list of dicts has no
    duplicate and holds exactly the keys that occur in some dict; the
    keys of the first dict come first, in the dict's own order. *)
Theorem frame_columns_are_the_keys (ds : list Row) :
  NoDup (columns (pd_DataFrame ds))
  /\ (forall k, k ∈ columns (pd_DataFrame ds) <-> exists d, d ∈ ds /\ k ∈ dict_keys d)
  /\ (forall d ds', ds = d :: ds' -> NoDup (dict_keys d) ->
        exists more, columns (pd_DataFrame ds) = dict_keys d ++ more).
Proof.
  unfold pd_DataFrame, union_keys. simpl.
  destruct (union_keys_fold ds [] (NoDup_nil_2)) as [Hnd Hin].
  split; [done|]. split.
  - intros k. rewrite Hin. split; [|by right].
    intros [H|H]; [by apply elem_of_nil in H | done].
  - intros d ds' -> Hd. simpl.
    assert (E : add_keys (dict_keys d) [] = dict_keys d).
    { assert (G : forall ks acc, NoDup (acc ++ ks) -> add_keys ks acc = acc ++ ks).
      { clear. induction ks as [|k ks IH]; intros acc Hnd; simpl.
        - by rewrite app_nil_r.
        - apply NoDup_app in Hnd as Hnd'. destruct Hnd' as (_ & Hdis & _).
          rewrite bool_decide_eq_false_2.
          + rewrite IH; rewrite <- app_assoc; done.
          + intros Hk. apply (Hdis k Hk), list_elem_of_here. }
      by rewrite (G (dict_keys d) []). }
    rewrite E. generalize (dict_keys d) as acc. clear.
    induction ds' as [|d' ds' IH]; intros acc; simpl.
    + exists []. by rewrite app_nil_r.
    + destruct (add_keys_from (dict_keys d') acc) as [new ->].
      destruct (IH (acc ++ new)) as [more ->].
      exists (new ++ more). by rewrite <- app_assoc.
Qed.

(** ** Fetcher, error page and sliders *)

Lemma lat_lon_distinct : lit "lat" <> lit "lon".
Proof. discriminate. Qed.

Lemma row_of_built_from (f : Feature) (r : Row) : row_of f = Some r -> built_from f r.
Proof.
  unfold row_of.
  destruct (properties f) as [props|] eqn:Ep; [|discriminate].
  destruct (geometry f) as [[|c0 [|c1 cs]]|] eqn:Eg; try discriminate.
  intros [= <-]. exists props, c0, c1, cs.
  split; [done|]. split; [done|]. split; [|split].
  - unfold lat. rewrite dict_get_set_ne by apply lat_lon_distinct. apply dict_get_set_eq.
  - unfold lon. apply dict_get_set_eq.
  - intros k Hlat Hlon. by rewrite !dict_get_set_ne.
Qed.

Lemma row_of_has_lat (f : Feature) (r : Row) : row_of f = Some r -> lit "lat" ∈ dict_keys r.
Proof.
  intros (props & c0 & c1 & cs & _ & _ & Hlat & _)%row_of_built_from.
  unfold lat in Hlat. clear -Hlat. unfold dict_keys.
  induction r as [|[k v] r IH]; simpl in *; [discriminate|].
  case_bool_decide as E.
  - subst k. apply list_elem_of_here.
  - apply list_elem_of_further, IH, Hlat.
Qed.

(** The two outcomes of [get_clean_data]. *)
Lemma get_clean_data_cases (response : exn + Response) :
  (exists e, get_clean_data response = (pd_DataFrame [], Some e))
  \/ (exists fs rs, response = response_of fs
        /\ mapM row_of fs = Some rs
        /\ get_clean_data response = (pd_DataFrame rs, None)).
Proof.
  destruct response as [e|[[fs|]]].
  - left. by exists e.
  - pose proof (loop_mapM fs []) as H.
    destruct (mapM row_of fs) as [rs|] eqn:Em.
    + right. exists fs, rs. split; [done|]. split; [done|].
      unfold get_clean_data. simpl. by rewrite H.
    + left. destruct H as [e He]. exists e.
      unfold get_clean_data. simpl. by rewrite He.
  - left. by exists KeyError.
Qed.

(** X3: when the fetch succeeds, the dataset has one row per feature, in
    the order of the response; each row reads [lat] from the second
    coordinate and [lon] from the first (GeoJSON stores lon, lat), also
    when the feed has properties of those names, and reads every other
    key as the feature's properties have it. *)
Theorem fetched_rows_carry_features (fs : list Feature) (df : DataFrame) :
  get_clean_data (response_of fs) = (df, None) ->
  Forall2 built_from fs (rows df) /\ len df = length fs.
Proof.
  intros E.
  destruct (get_clean_data_cases (response_of fs)) as [[e He]|(fs' & rs & Hfs & Hm & Hg)].
  { rewrite He in E. discriminate. }
  injection Hfs as <-. rewrite Hg in E. injection E as <-.
  apply mapM_Some in Hm. simpl. split.
  - eapply Forall2_impl; [exact Hm|]. intros f r. apply row_of_built_from.
  - unfold len. simpl. symmetry. by eapply Forall2_length.
Qed.

Lemma fetched_rows_carry_features_witness :
  Forall2 built_from [good_feature; nan_feature]
    (rows (fst (get_clean_data (response_of [good_feature; nan_feature]))))
  /\ len (fst (get_clean_data (response_of [good_feature; nan_feature]))) = 2.
Proof.
  exact (fetched_rows_carry_features [good_feature; nan_feature]
           (fst (get_clean_data (response_of [good_feature; nan_feature]))) eq_refl).
Defined.

Lemma empty_fetched (fs : list Feature) (rs : list Row) :
  mapM row_of fs = Some rs -> empty (pd_DataFrame rs) = true -> fs = [].
Proof.
  intros Hm He. apply mapM_Some in Hm.
  destruct Hm as [|f r fs rs Hr Hm]; [done|]. exfalso.
  unfold empty in He. simpl in He.
  destruct (union_keys (r :: rs)) as [|k ks] eqn:Ek; [|discriminate].
  pose proof (row_of_has_lat f r Hr) as Hlat.
  destruct (union_keys_fold (r :: rs) [] (NoDup_nil_2)) as [_ Hin].
  unfold union_keys in Ek. rewrite Ek in Hin.
  apply (not_elem_of_nil (lit "lat")). apply Hin. right.
  exists r. split; [apply list_elem_of_here | done].
Qed.

(** X4: the script shows the error page, and raises nothing, exactly when
    the fetch reported an exception or the response held no feature at
    all; a failed fetch never reaches the filters, the map or the
    export. *)
Theorem error_page_iff `{Host} (response : exn + Response)
    (widgets : DataFrame -> (Z * Z) * (Z * Z) -> FilterCriteria * pystr) :
  main response widgets = inr None <->
  snd (get_clean_data response) <> None \/ response = response_of [].
Proof.
  unfold main. split.
  - destruct (empty (fst (get_clean_data response))) eqn:He; simpl.
    + intros _.
      destruct (get_clean_data_cases response) as [[e Hg]|(fs & rs & Hr & Hm & Hg)].
      * left. by rewrite Hg.
      * right. rewrite Hg in He. simpl in He.
        by rewrite Hr, (empty_fetched fs rs Hm He).
    + destruct (getitem _ _) as [e|?]; simpl; [discriminate|].
      destruct (slider_bounds _) as [e|bounds]; simpl; [discriminate|].
      destruct (widgets _ bounds) as [c map_type].
      destruct (build_map _ _) as [e|?]; simpl; [discriminate|].
      destruct (csv_bytes _) as [e|?]; simpl; discriminate.
  - intros [Herr| ->].
    + destruct (get_clean_data_cases response) as [[e Hg]|(fs & rs & Hr & Hm & Hg)].
      * by rewrite Hg.
      * by rewrite Hg in Herr.
    + reflexivity.
Qed.

Lemma series_min_None (s : list (option Q)) : series_min s = None <-> dropna s = [].
Proof. unfold series_min. destruct (dropna s); split; done. Qed.

Lemma series_max_None (s : list (option Q)) : series_max s = None <-> dropna s = [].
Proof. unfold series_max. destruct (dropna s); split; done. Qed.









Example script_no_height_column :
  main (response_of [{| properties := Some [(lit "COMMON", CStr (lit "Oak"))];
                        geometry := Some [CNum (-1226 # 10); CNum (455 # 10)] |}]) untouched
  = inl KeyError.
Proof. reflexivity. Qed.

Example script_nan_location :
  main (response_of [good_feature; nan_feature]) untouched = inl ValueError.
Proof. reflexivity. Qed.

(** ** Truncation and the slider bounds *)

Lemma trunc_floor (x : Q) : (0 <= Qnum x)%Z -> trunc x = Qfloor x.
Proof.
  destruct x as [a b]. unfold trunc, Qfloor. simpl. intros Ha.
  apply Z.quot_div_nonneg; lia.
Qed.

Lemma trunc_ceiling (x : Q) : (Qnum x <= 0)%Z -> trunc x = Qceiling x.
Proof.
  destruct x as [a b]. unfold trunc, Qceiling, Qfloor. simpl. intros Ha.
  rewrite <- (Z.opp_involutive a) at 1. rewrite Z.quot_opp_l by lia.
  f_equal. apply Z.quot_div_nonneg; lia.
Qed.

Lemma Qnum_nonneg (x : Q) : (0 <= Qnum x)%Z <-> (0 <= x)%Q.
Proof. destruct x as [a b]. unfold Qle. simpl. lia. Qed.

Lemma trunc_mono (x y : Q) : (x <= y)%Q -> (trunc x <= trunc y)%Z.
Proof.
  intros Hxy.
  destruct (Z.le_gt_cases 0 (Qnum x)) as [Hx|Hx], (Z.le_gt_cases 0 (Qnum y)) as [Hy|Hy].
  - rewrite !trunc_floor by done. by apply Qfloor_resp_le.
  - exfalso. apply Qnum_nonneg in Hx.
    assert (Hy' : (0 <= y)%Q) by (eapply Qle_trans; eauto).
    apply Qnum_nonneg in Hy'. lia.
  - rewrite trunc_ceiling, trunc_floor by lia. transitivity 0%Z.
    + change 0%Z with (Qceiling 0). apply Qceiling_resp_le.
      destruct x as [a b]. unfold Qle. simpl in *. lia.
    + change 0%Z with (Qfloor 0). apply Qfloor_resp_le. by apply Qnum_nonneg.
  - rewrite !trunc_ceiling by lia. by apply Qceiling_resp_le.
Qed.

Lemma trunc_below (x : Q) :
  (0 <= x)%Q -> (inject_Z (trunc x) <= x)%Q /\ (x < inject_Z (trunc x + 1))%Q.
Proof.
  intros Hx%Qnum_nonneg. rewrite trunc_floor by done.
  split; [apply Qfloor_le | apply Qlt_floor].
Qed.

Lemma slider_bounds_inr (df : DataFrame) (bounds : (Z * Z) * (Z * Z)) :
  slider_bounds df = inr bounds ->
  exists mh Mh md Md,
    series_min (col HEIGHT df) = Some mh /\ series_max (col HEIGHT df) = Some Mh
    /\ series_min (col DIAMETER df) = Some md /\ series_max (col DIAMETER df) = Some Md
    /\ bounds = ((trunc mh, trunc Mh), (trunc md, trunc Md)).
Proof.
  unfold slider_bounds. intros Hb.
  destruct (getitem (lit "HEIGHT") df); [discriminate|]. simpl in Hb.
  destruct (series_min (col HEIGHT df)) as [mh|]; [|discriminate].
  destruct (series_max (col HEIGHT df)) as [Mh|]; [|discriminate]. simpl in Hb.
  destruct (getitem (lit "DIAMETER") df); [discriminate|]. simpl in Hb.
  destruct (series_min (col DIAMETER df)) as [md|]; [|discriminate].
  destruct (series_max (col DIAMETER df)) as [Md|]; [|discriminate]. simpl in Hb.
  injection Hb as <-. by exists mh, Mh, md, Md.
Qed.

(** X6: the bounds handed to each slider are ordered: the lower bound
    never exceeds the upper one, whatever the dataset. *)
Theorem slider_bounds_ordered (df : DataFrame) (a b c d : Z) :
  slider_bounds df = inr ((a, b), (c, d)) -> (a <= b)%Z /\ (c <= d)%Z.
Proof.
  intros (mh & Mh & md & Md & Emh & EMh & Emd & EMd & Hb)%slider_bounds_inr.
  injection Hb as -> -> -> ->.
  assert (Hh : dropna (col HEIGHT df) <> []).
  { intros E%series_min_None. congruence. }
  assert (Hd : dropna (col DIAMETER df) <> []).
  { intros E%series_min_None. congruence. }
  destruct (series_min_spec _ Hh) as (mh' & Emh' & Hmh).
  destruct (series_max_spec _ Hh) as (Mh' & EMh' & HMh).
  destruct (series_min_spec _ Hd) as (md' & Emd' & Hmd).
  destruct (series_max_spec _ Hd) as (Md' & EMd' & HMd).
  assert (mh' = mh) as -> by congruence. assert (Mh' = Mh) as -> by congruence.
  assert (md' = md) as -> by congruence. assert (Md' = Md) as -> by congruence.
  split; apply trunc_mono.
  - apply (proj2 HMh), (proj1 Hmh).
  - apply (proj2 HMd), (proj1 Hmd).
Qed.

Lemma slider_bounds_ordered_witness : (50 <= 80)%Z /\ (20 <= 30)%Z.
Proof.
  exact (slider_bounds_ordered sample 50 80 20 30 eq_refl).
Defined.

(** X7: on a dataset whose heights and diameters are not negative, a
    record with both values present that the default criteria leave out
    is one that lies above an upper bound: its height exceeds the height
    bound, or its diameter the diameter bound, by less than one unit.
    The lower bounds leave nothing out. *)
Theorem default_criteria_leave_out_only_the_top
    (df : DataFrame) (c : FilterCriteria) (r : Row) (x y : Q) :
  default_criteria df = inr c ->
  (forall r' z, r' ∈ rows df -> HEIGHT r' = Some z -> (0 <= z)%Q) ->
  (forall r' z, r' ∈ rows df -> DIAMETER r' = Some z -> (0 <= z)%Q) ->
  r ∈ rows df -> HEIGHT r = Some x -> DIAMETER r = Some y ->
  r ∉ rows (apply_filters df c) ->
  (inject_Z (snd (height_range c)) < x /\ x < inject_Z (snd (height_range c) + 1))%Q
  \/ (inject_Z (snd (diameter_range c)) < y /\ y < inject_Z (snd (diameter_range c) + 1))%Q.
Proof.
  intros Hc Hhpos Hdpos Hr Hx Hy Hout.
  unfold default_criteria in Hc.
  destruct (slider_bounds df) as [e|[[a b] [a' b']]] eqn:Eb; [discriminate|].
  simpl in Hc. injection Hc as <-. cbn [height_range diameter_range fst snd].
  pose proof (elem_of_col_dropna HEIGHT df r x Hr Hx) as Hxin.
  pose proof (elem_of_col_dropna DIAMETER df r y Hr Hy) as Hyin.
  assert (Hh : dropna (col HEIGHT df) <> []) by (intros E; rewrite E in Hxin; by apply elem_of_nil in Hxin).
  assert (Hd : dropna (col DIAMETER df) <> []) by (intros E; rewrite E in Hyin; by apply elem_of_nil in Hyin).
  destruct (series_min_spec _ Hh) as (mh & Emh & Hmh).
  destruct (series_max_spec _ Hh) as (Mh & EMh & HMh).
  destruct (series_min_spec _ Hd) as (md & Emd & Hmd).
  destruct (series_max_spec _ Hd) as (Md & EMd & HMd).
  apply slider_bounds_inr in Eb as (mh' & Mh' & md' & Md' & Emh' & EMh' & Emd' & EMd' & Eb).
  assert (mh' = mh) as -> by congruence. assert (Mh' = Mh) as -> by congruence.
  assert (md' = md) as -> by congruence. assert (Md' = Md) as -> by congruence.
  injection Eb as -> -> -> ->.
  assert (Pos : forall (f : Row -> option Q) m, m ∈ dropna (col f df) ->
            exists r', r' ∈ rows df /\ f r' = Some m).
  { intros f m Hm%elem_of_dropna. unfold col in Hm.
    apply list_elem_of_In, in_map_iff in Hm as (r' & E & Hr').
    exists r'. split; [by apply list_elem_of_In | done]. }
  assert (Hmh0 : (0 <= mh)%Q).
  { destruct (Pos HEIGHT mh (proj1 Hmh)) as (r' & Hr' & E). eapply Hhpos; eauto. }
  assert (HMh0 : (0 <= Mh)%Q).
  { destruct (Pos HEIGHT Mh (proj1 HMh)) as (r' & Hr' & E). eapply Hhpos; eauto. }
  assert (Hmd0 : (0 <= md)%Q).
  { destruct (Pos DIAMETER md (proj1 Hmd)) as (r' & Hr' & E). eapply Hdpos; eauto. }
  assert (HMd0 : (0 <= Md)%Q).
  { destruct (Pos DIAMETER Md (proj1 HMd)) as (r' & Hr' & E). eapply Hdpos; eauto. }
  destruct (trunc_below mh Hmh0) as [Lmh _]. destruct (trunc_below md Hmd0) as [Lmd _].
  destruct (trunc_below Mh HMh0) as [_ UMh]. destruct (trunc_below Md HMd0) as [_ UMd].
  destruct (Qlt_le_dec (inject_Z (trunc Mh)) x) as [Hxh|Hxh].
  { left. split; [done|]. eapply Qle_lt_trans; [apply (proj2 HMh x Hxin) | done]. }
  destruct (Qlt_le_dec (inject_Z (trunc Md)) y) as [Hyh|Hyh].
  { right. split; [done|]. eapply Qle_lt_trans; [apply (proj2 HMd y Hyin) | done]. }
  exfalso. apply Hout.
  rewrite rows_apply_filters, elem_of_bool_filter, keeps_true. simpl.
  split; [done|]. split; [by left|]. split.
  - exists x. split; [done|]. split; [|done].
    eapply Qle_trans; [exact Lmh | apply (proj2 Hmh x Hxin)].
  - exists y. split; [done|]. split; [|done].
    eapply Qle_trans; [exact Lmd | apply (proj2 Hmd y Hyin)].
Qed.

Lemma default_criteria_leave_out_only_the_top_witness :
  (inject_Z 80 < 161 # 2 /\ 161 # 2 < inject_Z (80 + 1))%Q
  \/ (inject_Z 30 < 30 /\ 30 < inject_Z (30 + 1))%Q.
Proof.
  apply (default_criteria_leave_out_only_the_top with_fir
           {| choice := All; height_range := (50, 80)%Z; diameter_range := (20, 30)%Z |}
           fir (161 # 2) 30).
  - reflexivity.
  - intros r' z [->|[->|H]%elem_of_cons]%elem_of_cons Hz;
      [| |by apply elem_of_nil in H]; vm_compute in Hz; injection Hz as <-; by vm_compute.
  - intros r' z [->|[->|H]%elem_of_cons]%elem_of_cons Hz;
      [| |by apply elem_of_nil in H]; vm_compute in Hz; injection Hz as <-; by vm_compute.
  - apply list_elem_of_further, list_elem_of_here.
  - reflexivity.
  - reflexivity.
  - rewrite rows_apply_filters, elem_of_bool_filter. intros [_ H]. by vm_compute in H.
Defined.

(** ** How filters compose *)

Lemma rows_filter_twice (df : DataFrame) (c c' : FilterCriteria) :
  rows (apply_filters (apply_filters df c) c')
  = List.filter (fun r => keeps c r && keeps c' r) (rows df).
Proof. by rewrite !rows_apply_filters, filter_filter_andb. Qed.

(** X8: filtering an already filtered subset with the same criteria
    changes nothing, and filtering with two criteria one after the other
    gives the same subset in either order: the records that pass both. *)
Theorem filters_compose (df : DataFrame) (c c' : FilterCriteria) :
  apply_filters (apply_filters df c) c = apply_filters df c
  /\ apply_filters (apply_filters df c) c' = apply_filters (apply_filters df c') c
  /\ rows (apply_filters (apply_filters df c) c')
     = List.filter (fun r => keeps c r && keeps c' r) (rows df).
Proof.
  split; [|split].
  - apply DataFrame_eq; [by rewrite !columns_apply_filters|].
    rewrite rows_filter_twice, rows_apply_filters.
    apply filter_ext. intros r. by destruct (keeps c r).
  - apply DataFrame_eq; [by rewrite !columns_apply_filters|].
    rewrite !rows_filter_twice. apply filter_ext. intros r. apply andb_comm.
  - apply rows_filter_twice.
Qed.

Lemma keeps_narrower (c' c : FilterCriteria) (r : Row) :
  narrower c' c -> keeps c' r = true -> keeps c r = true.
Proof.
  intros (Hs & Hh1 & Hh2 & Hd1 & Hd2). rewrite !keeps_true.
  intros (Hsp & (x & Hx & Hx1 & Hx2) & (y & Hy & Hy1 & Hy2)).
  rewrite Zle_Qle in Hh1, Hh2, Hd1, Hd2.
  split; [|split].
  - destruct Hs as [?|E]; [by left|]. by rewrite <- E.
  - exists x. split; [done|]. split; eapply Qle_trans; eauto.
  - exists y. split; [done|]. split; eapply Qle_trans; eauto.
Qed.

(** X9: narrowing.  When the second criteria ask for at least what the
    first ask for (same species, or the first ask for "All"; ranges
    inside the first ones), filtering the dataset with them gives a
    subsequence of the first subset, and the same frame as filtering the
    first subset with them. *)
Theorem narrower_criteria_narrow (df : DataFrame) (c c' : FilterCriteria) :
  narrower c' c ->
  apply_filters (apply_filters df c) c' = apply_filters df c'
  /\ rows (apply_filters df c') `sublist_of` rows (apply_filters df c)
  /\ len (apply_filters df c') <= len (apply_filters df c).
Proof.
  intros Hn.
  assert (E : apply_filters (apply_filters df c) c' = apply_filters df c').
  { apply DataFrame_eq; [by rewrite !columns_apply_filters|].
    rewrite rows_filter_twice, rows_apply_filters. apply filter_ext. intros r.
    destruct (keeps c' r) eqn:E'; [|apply andb_false_r].
    by rewrite (keeps_narrower c' c r Hn E'). }
  split; [done|].
  assert (S : rows (apply_filters df c') `sublist_of` rows (apply_filters df c)).
  { rewrite <- E. rewrite (rows_apply_filters (apply_filters df c) c'). apply filter_sublist. }
  split; [done|]. unfold len. by apply sublist_length.
Qed.

Lemma narrower_criteria_narrow_witness :
  apply_filters (apply_filters sample widest) oaks_only = apply_filters sample oaks_only
  /\ rows (apply_filters sample oaks_only) `sublist_of` rows (apply_filters sample widest)
  /\ len (apply_filters sample oaks_only) <= len (apply_filters sample widest).
Proof.
  apply (narrower_criteria_narrow sample widest oaks_only).
  split; [by left|]. simpl. lia.
Defined.




(** ** Statistics of a filtered subset *)

Lemma nunique_col_metrics `{Host} (df : DataFrame) :
  species_count (metrics df) = nunique (col COMMON df).
Proof. reflexivity. Qed.

Lemma elem_of_col {A} (f : Row -> A) (df : DataFrame) (a : A) :
  a ∈ col f df <-> exists r, r ∈ rows df /\ f r = a.
Proof.
  unfold col. rewrite list_elem_of_In, in_map_iff. split.
  - intros (r & E & Hr). exists r. split; [by apply list_elem_of_In | done].
  - intros (r & Hr & E). exists r. split; [done | by apply list_elem_of_In].
Qed.

(** X11: when a species other than "All" is selected, every record of
    the subset has that species, so the species count shown is 1, or 0
    when the subset is empty. *)
Theorem one_species_when_selected `{Host} (df : DataFrame) (c : FilterCriteria) :
  choice c <> All ->
  (forall r, r ∈ rows (apply_filters df c) -> COMMON r = Some (choice c))
  /\ species_count (metrics (apply_filters df c)) <= 1
  /\ (rows (apply_filters df c) <> [] -> species_count (metrics (apply_filters df c)) = 1).
Proof.
  intros Hc.
  assert (Hall : forall r, r ∈ rows (apply_filters df c) -> COMMON r = Some (choice c)).
  { intros r. rewrite rows_apply_filters, elem_of_bool_filter, keeps_true.
    intros (_ & [?|?] & _); done. }
  split; [done|].
  rewrite nunique_col_metrics, nunique_size.
  set (S := list_to_set (dropna (col COMMON (apply_filters df c))) : gset pystr).
  assert (Hsub : S ⊆ {[ choice c ]}).
  { intros s Hs. apply elem_of_list_to_set, elem_of_dropna, elem_of_col in Hs
      as (r & Hr & E). rewrite (Hall r Hr) in E. injection E as <-.
    by apply elem_of_singleton. }
  split.
  - apply subseteq_size in Hsub. by rewrite size_singleton in Hsub.
  - intros Hne.
    assert (exists r, r ∈ rows (apply_filters df c)) as [r Hr].
    { destruct (rows (apply_filters df c)) as [|r rs]; [done|].
      exists r. apply list_elem_of_here. }
    assert (Hin : choice c ∈ S).
    { apply elem_of_list_to_set, elem_of_dropna, elem_of_col. exists r.
      split; [done | by apply Hall]. }
    assert (ES : S = {[ choice c ]}).
    { apply set_eq. intros s. split; [apply Hsub|].
      intros ->%elem_of_singleton. done. }
    rewrite ES. apply size_singleton.
Qed.

Lemma one_species_when_selected_witness :
  (forall r, r ∈ rows (apply_filters sample oaks_only) -> COMMON r = Some (choice oaks_only))
  /\ species_count (metrics (apply_filters sample oaks_only)) <= 1
  /\ (rows (apply_filters sample oaks_only) <> [] ->
      species_count (metrics (apply_filters sample oaks_only)) = 1).
Proof.
  apply (one_species_when_selected sample oaks_only). discriminate.
Defined.

Lemma dropna_all_present {A} (g : Row -> option A) (P : A -> Prop) (l : list Row) :
  (forall r, r ∈ l -> exists x, g r = Some x /\ P x) ->
  length (dropna (List.map g l)) = length l /\ Forall P (dropna (List.map g l)).
Proof.
  induction l as [|r l IH]; intros H; simpl; [by split|].
  destruct (H r (list_elem_of_here _ _)) as (x & -> & Hx).
  destruct IH as [IH1 IH2].
  { intros r' Hr'. by apply H, list_elem_of_further. }
  simpl. split; [by rewrite IH1 | by constructor].
Qed.

Lemma Qsum_between (xs : list Q) (a b : Q) :
  Forall (fun x => (a <= x)%Q /\ (x <= b)%Q) xs ->
  (a * inject_Z (Z.of_nat (length xs)) <= Qsum xs)%Q
  /\ (Qsum xs <= b * inject_Z (Z.of_nat (length xs)))%Q.
Proof.
  induction 1 as [|x xs [Hax Hxb] _ [IHa IHb]].
  - simpl. split.
    + rewrite Qmult_0_r. apply Qle_refl.
    + rewrite Qmult_0_r. apply Qle_refl.
  - cbn [length Qsum fold_right].
    rewrite Nat2Z.inj_succ. unfold Z.succ. rewrite inject_Z_plus.
    split.
    + assert (E : (a * (inject_Z (Z.of_nat (length xs)) + inject_Z 1)
                   == a + a * inject_Z (Z.of_nat (length xs)))%Q) by ring.
      rewrite E. by apply Qplus_le_compat.
    + assert (E : (b * (inject_Z (Z.of_nat (length xs)) + inject_Z 1)
                   == b + b * inject_Z (Z.of_nat (length xs)))%Q) by ring.
      rewrite E. by apply Qplus_le_compat.
Qed.

Lemma series_mean_between (s : list (option Q)) (a b m : Q) :
  Forall (fun x => (a <= x)%Q /\ (x <= b)%Q) (dropna s) ->
  series_mean s = Some m -> (a <= m)%Q /\ (m <= b)%Q.
Proof.
  intros Hall. unfold series_mean.
  destruct (dropna s) as [|x xs] eqn:E; [discriminate|]. intros [= <-].
  destruct (Qsum_between _ a b Hall) as [Ha Hb].
  assert (Hn : (0 < inject_Z (Z.of_nat (length (x :: xs))))%Q).
  { rewrite <- (Zlt_Qlt 0). simpl. lia. }
  split.
  - by apply Qle_shift_div_l.
  - by apply Qle_shift_div_r.
Qed.

Lemma filtered_all_measured (df : DataFrame) (c : FilterCriteria) :
  (forall r, r ∈ rows (apply_filters df c) ->
     exists x, HEIGHT r = Some x
       /\ (inject_Z (fst (height_range c)) <= x)%Q /\ (x <= inject_Z (snd (height_range c)))%Q)
  /\ (forall r, r ∈ rows (apply_filters df c) ->
     exists y, DIAMETER r = Some y
       /\ (inject_Z (fst (diameter_range c)) <= y)%Q
       /\ (y <= inject_Z (snd (diameter_range c)))%Q).
Proof.
  split; intros r; rewrite rows_apply_filters, elem_of_bool_filter, keeps_true;
    intros (_ & _ & Hh & Hd); done.
Qed.

Lemma series_mean_None (s : list (option Q)) : series_mean s = None <-> dropna s = [].
Proof. unfold series_mean. destruct (dropna s); split; done. Qed.

(** X12: on a filtered subset each average is NaN exactly when the subset
    is empty (no record of a subset misses a value), and otherwise lies
    inside the range selected on the corresponding slider. *)
Theorem filtered_means_in_range (df : DataFrame) (c : FilterCriteria) :
  (series_mean (col HEIGHT (apply_filters df c)) = None <-> rows (apply_filters df c) = [])
  /\ (series_mean (col DIAMETER (apply_filters df c)) = None <-> rows (apply_filters df c) = [])
  /\ (forall m, series_mean (col HEIGHT (apply_filters df c)) = Some m ->
        (inject_Z (fst (height_range c)) <= m)%Q /\ (m <= inject_Z (snd (height_range c)))%Q)
  /\ (forall m, series_mean (col DIAMETER (apply_filters df c)) = Some m ->
        (inject_Z (fst (diameter_range c)) <= m)%Q
        /\ (m <= inject_Z (snd (diameter_range c)))%Q).
Proof.
  destruct (filtered_all_measured df c) as [Hh Hd].
  destruct (dropna_all_present HEIGHT _ _ Hh) as [Lh Fh].
  destruct (dropna_all_present DIAMETER _ _ Hd) as [Ld Fd].
  fold (col HEIGHT (apply_filters df c)) in Lh, Fh.
  fold (col DIAMETER (apply_filters df c)) in Ld, Fd.
  split; [|split; [|split]].
  - rewrite series_mean_None. split; intros E.
    + rewrite E in Lh. by destruct (rows (apply_filters df c)).
    + rewrite E in Lh. by destruct (dropna (col HEIGHT (apply_filters df c))).
  - rewrite series_mean_None. split; intros E.
    + rewrite E in Ld. by destruct (rows (apply_filters df c)).
    + rewrite E in Ld. by destruct (dropna (col DIAMETER (apply_filters df c))).
  - intros m. by apply series_mean_between.
  - intros m. by apply series_mean_between.
Qed.

(** ** The map payload and the page *)

Lemma payload_of_markers (children : list CircleMarker) :
  payload_points (List.map Marker children) = List.map location children
  /\ payload_markers (List.map Marker children) = children.
Proof.
  unfold payload_points, payload_markers.
  induction children as [|m ms [IH1 IH2]]; simpl; [done|]. by rewrite IH1, IH2.
Qed.

(** A payload that was built has one point per record. *)
Lemma built_points_length `{Host} (map_type : pystr) (df_filtered : DataFrame)
    (layers : list Layer) :
  build_map map_type df_filtered = inr layers ->
  length (payload_points layers) = length (rows df_filtered).
Proof.
  unfold build_map, heatmap_branch, cluster_branch, markers_branch.
  repeat case_bool_decide.
  - destruct (for_each _ _) as [e|locs] eqn:E; simpl; [discriminate|].
    intros [= <-]. apply for_each_inr, Forall2_length in E.
    unfold payload_points. simpl. by rewrite app_nil_r.
  - destruct (for_each _ _) as [e|children] eqn:E; simpl; [discriminate|].
    intros [= <-]. apply for_each_inr, Forall2_length in E.
    unfold payload_points. simpl. by rewrite app_nil_r, length_map.
  - intros E. apply for_each_inr in E. unfold payload_points.
    induction E as [|row layer rows layers Hbody _ IH]; [done|].
    cbv zeta in Hbody.
    destruct (validate_location row) as [e|p]; simpl in Hbody; [discriminate|].
    injection Hbody as <-. simpl. by rewrite IH.
Qed.

(** X13: on a subset all of whose records have finite coordinates the
    coordinates handed to the map are the same in every mode: one
    (lat, lon) pair per record of the subset, in order, and outside the
    heat map mode one marker per record.  A mode that is neither
    "HeatMap" nor "Marker Cluster" is drawn as "Markers".  On a subset
    with a record whose latitude or longitude holds no value, whatever
    the mode, the map raises ValueError. *)
Theorem same_points_in_every_mode `{Host} (map_type : pystr) (df_filtered : DataFrame)
    (locs : list (Q * Q)) :
  Forall2 (fun row p => located row (fst p) (snd p)) (rows df_filtered) locs ->
  (exists layers,
     build_map map_type df_filtered = inr layers
     /\ payload_points layers = locs
     /\ (map_type <> lit "HeatMap" ->
           length (payload_markers layers) = length (rows df_filtered)))
  /\ (forall df mode, mode <> lit "HeatMap" -> mode <> lit "Marker Cluster" ->
        build_map mode df = build_map (lit "Markers") df)
  /\ (forall df mode row, row ∈ rows df -> no_value (lat row) \/ no_value (lon row) ->
        build_map mode df = inl ValueError).
Proof.
  intros Hlocs. split; [|split].
  - destruct (marker_loops df_filtered _ _ Hlocs) as (children & Ec & Em & Hshow & Hl).
    apply Forall2_length in Hshow.
    unfold build_map. repeat case_bool_decide.
    + exists [HeatMap locs 15 10]. unfold heatmap_branch.
      rewrite (heat_loop _ locs Hlocs). simpl.
      split; [done|]. split; [apply app_nil_r | done].
    + exists [MarkerCluster children]. split.
      { unfold cluster_branch.
        match goal with |- context [for_each ?b (rows df_filtered)] =>
          replace (for_each b (rows df_filtered)) with (inr children : exn + list CircleMarker)
            by (symmetry; exact Ec) end.
        done. }
      unfold payload_points, payload_markers. simpl. rewrite !app_nil_r.
      split; [done|]. intros _. by symmetry.
    + exists (List.map Marker children). split; [exact Em|].
      destruct (payload_of_markers children) as [-> ->].
      split; [done|]. intros _. by symmetry.
  - intros df mode H1 H2. unfold build_map.
    rewrite !bool_decide_eq_false_2 by done. done.
  - intros df mode row Hrow Hno. by eapply build_map_no_value.
Qed.

Lemma same_points_in_every_mode_witness :
  (exists layers,
     build_map (lit "Marker Cluster") sample = inr layers
     /\ payload_points layers = sample_locations
     /\ (lit "Marker Cluster" <> lit "HeatMap" ->
           length (payload_markers layers) = length (rows sample)))
  /\ (forall df mode, mode <> lit "HeatMap" -> mode <> lit "Marker Cluster" ->
        build_map mode df = build_map (lit "Markers") df)
  /\ (forall df mode row, row ∈ rows df -> no_value (lat row) \/ no_value (lon row) ->
        build_map mode df = inl ValueError).
Proof.
  apply (same_points_in_every_mode (lit "Marker Cluster") sample sample_locations).
  repeat constructor.
Defined.

(** X14: the numbers on the page agree: the tree count of the map header
    is the "Total Trees" metric and, when the map is built, the number
    of its entries; it is at most the size of the dataset, and the
    species count is at most it. *)
Theorem page_counts_agree `{Host} (df : DataFrame) (c : FilterCriteria) (map_type : pystr) :
  map_view_trees (render df c map_type) = total_trees (statistics (render df c map_type))
  /\ (forall layers, map_layers (render df c map_type) = inr layers ->
        map_view_trees (render df c map_type) = length (payload_points layers))
  /\ map_view_trees (render df c map_type) <= len df
  /\ species_count (statistics (render df c map_type)) <= map_view_trees (render df c map_type).
Proof.
  unfold render. cbn [map_view_trees statistics map_layers].
  split; [done|]. split; [|split].
  - intros layers E. unfold len. symmetry. by eapply built_points_length.
  - unfold len. apply sublist_length. rewrite rows_apply_filters. apply filter_sublist.
  - rewrite nunique_col_metrics. etransitivity; [apply nunique_le|].
    unfold col, len. by rewrite length_map.
Qed.

(** ** UTF-8 encoding *)

Lemma encode_char_inr (c : N) (bs : list N) :
  encode_char c = inr bs ->
  scalar_value c /\ Forall is_byte bs /\ 1 <= length bs <= 4.
Proof.
  unfold encode_char, scalar_value.
  destruct (N.ltb_spec c 128) as [H1|H1].
  { intros [= <-]. split; [|split].
    - split; [lia|]. unfold is_surrogate. by rewrite (proj2 (N.leb_gt 55296 c)) by lia.
    - unfold is_byte. repeat constructor. lia.
    - simpl. lia. }
  destruct (N.ltb_spec c 2048) as [H2|H2].
  { intros [= <-]. split; [|split].
    - split; [lia|]. unfold is_surrogate. by rewrite (proj2 (N.leb_gt 55296 c)) by lia.
    - unfold is_byte. repeat constructor; arith.
    - simpl. lia. }
  destruct (N.ltb_spec c 65536) as [H3|H3].
  { destruct (is_surrogate c) eqn:Hs; [discriminate|].
    intros [= <-]. split; [|split].
    - split; [lia | done].
    - unfold is_byte. repeat constructor; arith.
    - simpl. lia. }
  destruct (N.ltb_spec c 1114112) as [H4|H4]; [|discriminate].
  intros [= <-]. split; [|split].
  - split; [lia|]. unfold is_surrogate. rewrite (proj2 (N.leb_gt c 57343)) by lia.
    apply andb_false_r.
  - unfold is_byte. repeat constructor; arith.
  - simpl. lia.
Qed.

Lemma encode_char_inl (c : N) (e : exn) :
  encode_char c = inl e -> e = UnicodeEncodeError /\ ~ scalar_value c.
Proof.
  unfold encode_char, scalar_value.
  destruct (N.ltb_spec c 128); [discriminate|].
  destruct (N.ltb_spec c 2048); [discriminate|].
  destruct (N.ltb_spec c 65536).
  { destruct (is_surrogate c) eqn:Hs; [|discriminate].
    intros [= <-]. split; [done|]. by intros [_ ?]. }
  destruct (N.ltb_spec c 1114112); [discriminate|].
  intros [= <-]. split; [done|]. intros [? _]. lia.
Qed.

Lemma encode_utf8_inr (s : pystr) (bs : list N) :
  encode_utf8 s = inr bs ->
  unicode_text s /\ decode_utf8 bs = Some s /\ Forall is_byte bs
  /\ length s <= length bs <= 4 * length s.
Proof.
  revert bs. induction s as [|c s IH]; intros bs; simpl.
  - intros [= <-]. split; [constructor|]. split; [done|]. split; [constructor | simpl; lia].
  - destruct (encode_char c) as [e|b1] eqn:Ec; simpl; [discriminate|].
    destruct (encode_utf8 s) as [e|b2] eqn:Es; simpl; [discriminate|].
    intros [= <-].
    destruct (encode_char_inr c b1 Ec) as (Hc & Hb1 & Hl1).
    destruct (IH b2 eq_refl) as (Hs & Hd & Hb2 & Hl2).
    split; [by constructor|]. split; [|split].
    + by rewrite (decode_encode_char c b1 b2 Ec), Hd.
    + by apply Forall_app_2.
    + rewrite length_app. lia.
Qed.

(** X15: round trip.  Whenever a string is encoded, the bytes decode to
    that very string under the strict UTF-8 decoder; each is below 256;
    a character takes between one and four of them; and no other string
    has the same encoding. *)
Theorem utf8_round_trip (s : pystr) (bs : list N) :
  encode_utf8 s = inr bs ->
  decode_utf8 bs = Some s
  /\ Forall is_byte bs
  /\ length s <= length bs <= 4 * length s
  /\ forall s', encode_utf8 s' = inr bs -> s' = s.
Proof.
  intros E. destruct (encode_utf8_inr s bs E) as (_ & Hd & Hb & Hl).
  split; [done|]. split; [done|]. split; [done|].
  intros s' E'. destruct (encode_utf8_inr s' bs E') as (_ & Hd' & _).
  congruence.
Qed.

Lemma utf8_round_trip_witness :
  decode_utf8 [79; 195; 169; 226; 130; 172; 240; 159; 152; 128]%N
    = Some [79; 233; 8364; 128512]%N
  /\ Forall is_byte [79; 195; 169; 226; 130; 172; 240; 159; 152; 128]%N
  /\ length [79; 233; 8364; 128512]%N
     <= length [79; 195; 169; 226; 130; 172; 240; 159; 152; 128]%N
     <= 4 * length [79; 233; 8364; 128512]%N
  /\ forall s', encode_utf8 s' = inr [79; 195; 169; 226; 130; 172; 240; 159; 152; 128]%N ->
       s' = [79; 233; 8364; 128512]%N.
Proof.
  exact (utf8_round_trip [79; 233; 8364; 128512]%N
           [79; 195; 169; 226; 130; 172; 240; 159; 152; 128]%N eq_refl).
Defined.

(** X16: encoding raises exactly on a string that holds a code point
    which is not a character (a surrogate, or a value from 0x110000 on),
    and the exception is UnicodeEncodeError. *)
Theorem utf8_encode_raises_iff (s : pystr) (e : exn) :
  encode_utf8 s = inl e <-> e = UnicodeEncodeError /\ ~ unicode_text s.
Proof.
  split.
  - induction s as [|c s IH]; simpl; [discriminate|].
    destruct (encode_char c) as [e1|b1] eqn:Ec; simpl.
    + intros [= <-]. destruct (encode_char_inl c e1 Ec) as [-> Hc].
      split; [done|]. intros Hs. apply Hc. by apply Forall_cons in Hs as [? _].
    + destruct (encode_utf8 s) as [e2|b2] eqn:Es; simpl; [|discriminate].
      intros [= <-]. destruct (IH eq_refl) as [-> Hs].
      split; [done|]. intros Hcs. apply Hs. by apply Forall_cons in Hcs as [_ ?].
  - intros [-> Hs]. destruct (encode_utf8 s) as [e'|bs] eqn:E.
    + clear Hs. revert e' E. induction s as [|c s IH]; simpl; [discriminate|].
      intros e'. destruct (encode_char c) as [e1|b1] eqn:Ec; simpl.
      * intros [= <-]. by destruct (encode_char_inl c e1 Ec) as [-> _].
      * destruct (encode_utf8 s) as [e2|b2] eqn:Es; simpl; [|discriminate].
        intros [= <-]. by apply IH.
    + destruct Hs. by destruct (encode_utf8_inr s bs E) as [? _].
Qed.

(** X17: ASCII text is encoded byte for byte: the bytes are the code
    points. *)
Theorem utf8_ascii_unchanged (s : pystr) : ascii_text s -> encode_utf8 s = inr s.
Proof.
  induction 1 as [|c s Hc Hs IH]; simpl; [done|].
  unfold encode_char. rewrite (proj2 (N.ltb_lt c 128)) by done. simpl.
  by rewrite IH.
Qed.

Lemma utf8_ascii_unchanged_witness :
  encode_utf8 (lit "COMMON,HEIGHT") = inr (lit "COMMON,HEIGHT").
Proof.
  apply (utf8_ascii_unchanged (lit "COMMON,HEIGHT")).
  unfold ascii_text. simpl. repeat constructor.
Defined.

Lemma encode_utf8_app (a b : pystr) :
  encode_utf8 (a ++ b) =
  (x <-! encode_utf8 a ;; y <-! encode_utf8 b ;; inr (x ++ y)).
Proof.
  induction a as [|c a IH]; simpl.
  - by destruct (encode_utf8 b).
  - destruct (encode_char c) as [e|b1]; simpl; [done|].
    rewrite IH. destruct (encode_utf8 a) as [e|x]; simpl; [done|].
    destruct (encode_utf8 b) as [e|y]; simpl; [done|]. by rewrite app_assoc.
Qed.

(** ** CSV fields and the export *)

Lemma double_quotes_inj (s t : pystr) :
  flat_map (fun c => if (c =? QUOTE)%N then [QUOTE; QUOTE] else [c]) s
  = flat_map (fun c => if (c =? QUOTE)%N then [QUOTE; QUOTE] else [c]) t ->
  s = t.
Proof.
  revert t. induction s as [|c s IH]; intros [|d t]; simpl.
  - done.
  - destruct (d =? QUOTE)%N; discriminate.
  - destruct (c =? QUOTE)%N; discriminate.
  - destruct (N.eqb_spec c QUOTE) as [->|Hc], (N.eqb_spec d QUOTE) as [->|Hd]; simpl.
    + intros [= E]. by rewrite (IH t E).
    + intros [= E1 E2]. congruence.
    + intros [= E1 E2]. congruence.
    + intros [= -> E]. by rewrite (IH t E).
Qed.

Lemma csv_quote_inj (s t : pystr) : csv_quote s = csv_quote t -> s = t.
Proof.
  unfold csv_quote. intros E. apply app_inv_head, app_inv_tail in E.
  by apply double_quotes_inj.
Qed.

Lemma csv_special_QUOTE `{Host} : csv_special QUOTE = true.
Proof. reflexivity. Qed.

Lemma existsb_false_iff {A} (p : A -> bool) (l : list A) :
  existsb p l = false <-> forall x, x ∈ l -> p x = false.
Proof.
  induction l as [|a l IH]; simpl.
  - split; [|done]. intros _ x Hx. by apply elem_of_nil in Hx.
  - rewrite orb_false_iff, IH. split.
    + intros [Ha Hl] x [->|Hx]%elem_of_cons; auto.
    + intros Hl. split; [apply Hl, list_elem_of_here|].
      intros x Hx. by apply Hl, list_elem_of_further.
Qed.

(** X18: a field is written as it is exactly when it holds no comma, no
    quote and no character of the line terminator, so an unquoted field
    never breaks a record; otherwise it is written between quotes with
    its quotes doubled; and two different strings are never written as
    the same field. *)
Theorem csv_field_faithful `{Host} (s t : pystr) :
  (csv_field s = s <-> forall c, c ∈ s -> csv_special c = false)
  /\ (csv_field s <> s -> csv_field s = csv_quote s)
  /\ (csv_field s = csv_field t -> s = t).
Proof.
  assert (Hq : forall u, csv_quote u <> u).
  { intros u E. apply (f_equal length) in E. unfold csv_quote in E.
    rewrite !length_app in E. simpl in E.
    assert (length u <= length (flat_map
              (fun c => if (c =? QUOTE)%N then [QUOTE; QUOTE] else [c]) u)).
    { clear. induction u as [|c u IH]; simpl; [lia|].
      rewrite length_app. destruct (c =? QUOTE)%N; simpl; lia. }
    lia. }
  assert (Hplain : forall u v, existsb csv_special u = false -> csv_quote v <> u).
  { intros u v Hu E. rewrite existsb_false_iff in Hu.
    assert (Hin : QUOTE ∈ u) by (rewrite <- E; apply list_elem_of_here).
    specialize (Hu _ Hin). by rewrite csv_special_QUOTE in Hu. }
  split; [|split].
  - unfold csv_field. rewrite <- existsb_false_iff.
    destruct (existsb csv_special s) eqn:E; split; try done.
    intros E'. by apply Hq in E'.
  - unfold csv_field. by destruct (existsb csv_special s).
  - unfold csv_field.
    destruct (existsb csv_special s) eqn:Es, (existsb csv_special t) eqn:Et.
    + apply csv_quote_inj.
    + intros E. by apply Hplain in E.
    + intros E. symmetry in E. by apply Hplain in E.
    + done.
Qed.

(** X19: every export begins with the bytes of the header-only export of
    the dataset; for an empty subset nothing follows them. *)
Theorem export_begins_with_header `{Host}
    (df : DataFrame) (c : FilterCriteria) (bytes : list N) :
  csv_bytes (apply_filters df c) = inr bytes ->
  exists header rest,
    csv_bytes (mkDataFrame (columns df) []) = inr header
    /\ bytes = header ++ rest
    /\ (rows (apply_filters df c) = [] -> rest = []).
Proof.
  intros E. unfold csv_bytes in *.
  set (head := csv_record (List.map csv_field (columns df))).
  set (body := flat_map (csv_row (apply_filters df c)) (rows (apply_filters df c))).
  assert (Et : to_csv (apply_filters df c) = head ++ body).
  { unfold to_csv, csv_header. by rewrite columns_apply_filters. }
  assert (Eh : to_csv (mkDataFrame (columns df) []) = head).
  { unfold to_csv, csv_header. simpl. by rewrite app_nil_r. }
  rewrite Et, encode_utf8_app in E. rewrite Eh.
  destruct (encode_utf8 head) as [e|header]; simpl in E; [discriminate|].
  destruct (encode_utf8 body) as [e|rest] eqn:Er; simpl in E; [discriminate|].
  injection E as <-. exists header, rest. split; [done|]. split; [done|].
  intros Erows. unfold body in Er. rewrite Erows in Er. simpl in Er. by injection Er as <-.
Qed.

Lemma export_begins_with_header_witness :
  exists header rest,
    csv_bytes (mkDataFrame (columns sample) []) = inr header
    /\ to_csv (apply_filters sample oaks_only) = header ++ rest
    /\ (rows (apply_filters sample oaks_only) = [] -> rest = []).
Proof.
  exact (export_begins_with_header sample oaks_only
           (to_csv (apply_filters sample oaks_only)) eq_refl).
Defined.

(** ** Species select box *)

Lemma str_lt_cons (x y : N) (a b : pystr) :
  str_lt (x :: a) (y :: b) = true <-> (x < y)%N \/ (x = y /\ str_lt a b = true).
Proof. simpl. by rewrite orb_true_iff, andb_true_iff, N.ltb_lt, N.eqb_eq. Qed.

Lemma str_lt_irrefl (a : pystr) : str_lt a a = false.
Proof.
  induction a as [|x a IH]; [done|].
  apply not_true_is_false. rewrite str_lt_cons. intros [?|[_ ?]]; [lia | congruence].
Qed.

Lemma str_lt_trans (a b c : pystr) :
  str_lt a b = true -> str_lt b c = true -> str_lt a c = true.
Proof.
  revert b c. induction a as [|x a IH]; intros [|y b] [|z c]; try done.
  rewrite !str_lt_cons. intros [?|[-> Hab]] [?|[-> Hbc]].
  - left. lia.
  - by left.
  - by left.
  - right. split; [done|]. by eapply IH.
Qed.

Lemma str_lt_total (a b : pystr) :
  str_lt a b = false -> str_lt b a = false -> a = b.
Proof.
  revert b. induction a as [|x a IH]; intros [|y b]; try done.
  intros Hab Hba.
  apply not_true_iff_false in Hab, Hba. rewrite str_lt_cons in Hab, Hba.
  assert (x = y) as -> by lia. f_equal. apply IH.
  - apply not_true_iff_false. intros E. apply Hab. by right.
  - apply not_true_iff_false. intros E. apply Hba. by right.
Qed.

Lemma insert_sorted_spec (x : pystr) (l : list pystr) :
  StronglySorted (fun a b => str_lt a b = true) l ->
  x ∉ l ->
  StronglySorted (fun a b => str_lt a b = true) (insert_sorted x l)
  /\ forall y, y ∈ insert_sorted x l <-> y = x \/ y ∈ l.
Proof.
  induction 1 as [|y l Hl IH Hy]; intros Hx; simpl.
  - split; [repeat constructor|]. intros y. rewrite list_elem_of_singleton, elem_of_nil. tauto.
  - apply not_elem_of_cons in Hx as [Hxy Hxl].
    destruct (IH Hxl) as [IHs IHin].
    destruct (str_lt y x) eqn:Eyx.
    + split.
      * constructor; [done|]. apply Forall_forall. intros z [->|Hz]%IHin; [done|].
        rewrite Forall_forall in Hy. by apply Hy.
      * intros z. rewrite !elem_of_cons, IHin. tauto.
    + assert (Exy : str_lt x y = true).
      { destruct (str_lt x y) eqn:E; [done|]. destruct Hxy. by apply str_lt_total. }
      split.
      * constructor; [by constructor|]. constructor; [done|].
        apply Forall_forall. intros z Hz. rewrite Forall_forall in Hy.
        eapply str_lt_trans; [exact Exy | by apply Hy].
      * intros z. rewrite !elem_of_cons. tauto.
Qed.

Lemma sorted_spec (l : list pystr) :
  NoDup l ->
  StronglySorted (fun a b => str_lt a b = true) (sorted l)
  /\ forall y, y ∈ sorted l <-> y ∈ l.
Proof.
  induction 1 as [|x l Hx Hl [IHs IHin]]; simpl.
  - split; [constructor | done].
  - assert (Hx' : x ∉ sorted l) by by rewrite IHin.
    destruct (insert_sorted_spec x (sorted l) IHs Hx') as [Hs Hin].
    split; [done|]. intros y. rewrite Hin, IHin, elem_of_cons. tauto.
Qed.

(** X20: the species offered below "All" are in strictly ascending order
    of their code points, so none is listed twice; a species is offered
    exactly when some record of the dataset has it; and a selection other
    than "All" leaves at least one record exactly when it is an offered
    species. *)
Theorem species_options_sound (df : DataFrame) :
  species_options df = All :: all_species df
  /\ StronglySorted (fun a b => str_lt a b = true) (all_species df)
  /\ NoDup (all_species df)
  /\ (forall s, s ∈ all_species df <-> exists r, r ∈ rows df /\ COMMON r = Some s)
  /\ (forall c, choice c <> All ->
        (rows (species_filter df c) <> [] <-> choice c ∈ all_species df)).
Proof.
  destruct (sorted_spec _ (unique_NoDup (dropna (col COMMON df)))) as [Hs Hin].
  fold (all_species df) in Hs, Hin.
  assert (Hiff : forall s, s ∈ all_species df <-> exists r, r ∈ rows df /\ COMMON r = Some s).
  { intros s. by rewrite Hin, elem_of_unique, elem_of_dropna, elem_of_col. }
  split; [done|]. split; [done|]. split; [|split; [done|]].
  - clear -Hs. induction Hs as [|a l Hl IH Ha]; constructor; [|done].
    intros Hin. rewrite Forall_forall in Ha. specialize (Ha a Hin).
    by rewrite str_lt_irrefl in Ha.
  - intros c HAll. split.
    + intros Hne.
      assert (exists r, r ∈ rows (species_filter df c)) as [r Hr].
      { destruct (rows (species_filter df c)) as [|r rs]; [done|].
        exists r. apply list_elem_of_here. }
      rewrite rows_species_filter, elem_of_bool_filter in Hr. destruct Hr as [Hr Hm].
      rewrite (bool_decide_eq_false_2 (choice c = All)) in Hm by done. simpl in Hm.
      apply eq_str_true in Hm. apply Hiff. by exists r.
    + intros Hc. apply Hiff in Hc as (r & Hr & Er).
      assert (Hin' : r ∈ rows (species_filter df c)).
      { rewrite rows_species_filter, elem_of_bool_filter. split; [done|].
        unfold species_mask. rewrite Er. simpl.
        rewrite (bool_decide_eq_true_2 (choice c = choice c)) by done. apply orb_true_r. }
      intros E. rewrite E in Hin'. by apply elem_of_nil in Hin'.
Qed.

Example sample_options :
  species_options sample = [lit "All"; lit "Oak"; lit "Pine"].
Proof. reflexivity. Qed.

(** ** The cache *)

Lemma reruns_in_window (network : Q -> exn + Response) (t0 : Q) (v : DataFrame * option exn)
    (log : list Q) (ts : list Q) :
  Forall (fun t => (t < t0 + ttl)%Q) ts ->
  reruns network ts {| entry := Some (t0, v); requests := log |}
  = (replicate (length ts) v, {| entry := Some (t0, v); requests := log |}).
Proof.
  induction 1 as [|t ts Ht _ IH]; simpl; [done|].
  unfold cached_get_clean_data. simpl.
  destruct (Qle_bool (t0 + ttl) t) eqn:E.
  - apply Qle_bool_iff in E. by apply Qlt_not_le in Ht.
  - by rewrite IH.
Qed.

(** X21: when the script runs again, however many times, before one hour
    has passed since the run that fetched, the request is issued once and
    every run gets the frame of that first run, a failed fetch (empty
    frame and its error) included, whatever the service would answer by
    then; the first run at or after the hour fetches again. *)
Theorem cache_serves_first_fetch_for_an_hour
    (network : Q -> exn + Response) (t0 : Q) (ts : list Q) (late : Q) :
  Forall (fun t => (t < t0 + ttl)%Q) ts ->
  (t0 + ttl <= late)%Q ->
  reruns network (t0 :: ts) empty_cache
  = (replicate (S (length ts)) (get_clean_data (network t0)),
     {| entry := Some (t0, get_clean_data (network t0)); requests := [t0] |})
  /\ reruns network (t0 :: ts ++ [late]) empty_cache
     = (replicate (S (length ts)) (get_clean_data (network t0))
          ++ [get_clean_data (network late)],
        {| entry := Some (late, get_clean_data (network late)); requests := [t0; late] |}).
Proof.
  intros Hts Hlate.
  assert (Hrun : forall ts',
    reruns network (t0 :: ts') empty_cache
    = (let '(vs, st) := reruns network ts'
         {| entry := Some (t0, get_clean_data (network t0)); requests := [t0] |} in
       (get_clean_data (network t0) :: vs, st))) by done.
  split.
  - rewrite Hrun, (reruns_in_window network t0 _ [t0] ts Hts). done.
  - rewrite Hrun.
    assert (Happ : forall ts1 ts2 st,
      reruns network (ts1 ++ ts2) st
      = (let '(v1, st1) := reruns network ts1 st in
         let '(v2, st2) := reruns network ts2 st1 in (v1 ++ v2, st2))).
    { induction ts1 as [|t ts1 IH]; intros ts2 st; simpl.
      - by destruct (reruns network ts2 st).
      - destruct (cached_get_clean_data network t st) as [v st'].
        rewrite IH. destruct (reruns network ts1 st') as [v1 st1].
        by destruct (reruns network ts2 st1). }
    rewrite Happ, (reruns_in_window network t0 _ [t0] ts Hts). simpl.
    unfold cached_get_clean_data. simpl.
    apply Qle_bool_iff in Hlate. rewrite Hlate. done.
Qed.

Lemma cache_serves_first_fetch_for_an_hour_witness :
  reruns (fun t => if Qle_bool 100%Q t then response_of [good_feature] else inl RequestError)
    (0%Q :: [10%Q; 3599%Q]) empty_cache
  = (replicate 3 (get_clean_data (inl RequestError)),
     {| entry := Some (0%Q, get_clean_data (inl RequestError)); requests := [0%Q] |})
  /\ reruns (fun t => if Qle_bool 100%Q t then response_of [good_feature] else inl RequestError)
       (0%Q :: [10%Q; 3599%Q] ++ [3600%Q]) empty_cache
     = (replicate 3 (get_clean_data (inl RequestError))
          ++ [get_clean_data (response_of [good_feature])],
        {| entry := Some (3600%Q, get_clean_data (response_of [good_feature]));
           requests := [0%Q; 3600%Q] |}).
Proof.
  apply (cache_serves_first_fetch_for_an_hour
           (fun t => if Qle_bool 100%Q t then response_of [good_feature] else inl RequestError)
           0%Q [10%Q; 3599%Q] 3600%Q).
  - repeat constructor.
  - by vm_compute.
Defined.

(** ** A well-formed feed can always be exported *)

Lemma dict_set_text (k : pystr) (v : cell) (d : Row) :
  unicode_text k -> cell_text v ->
  Forall (fun kv => unicode_text (fst kv) /\ cell_text (snd kv)) d ->
  Forall (fun kv => unicode_text (fst kv) /\ cell_text (snd kv)) (dict_set k v d).
Proof.
  intros Hk Hv. induction 1 as [|[k' v'] d [Hk' Hv'] Hd IH]; simpl.
  - by repeat constructor.
  - case_bool_decide; constructor; done.
Qed.

Lemma lit_lat_text : unicode_text (lit "lat").
Proof. apply ascii_unicode. unfold ascii_text. simpl. repeat constructor. Qed.

Lemma lit_lon_text : unicode_text (lit "lon").
Proof. apply ascii_unicode. unfold ascii_text. simpl. repeat constructor. Qed.

Lemma row_of_text (f : Feature) (r : Row) :
  feature_text f -> row_of f = Some r ->
  Forall (fun kv => unicode_text (fst kv) /\ cell_text (snd kv)) r.
Proof.
  unfold feature_text, row_of.
  destruct (properties f) as [props|]; [|intros _; discriminate].
  destruct (geometry f) as [[|c0 [|c1 cs]]|]; try (intros _; discriminate).
  intros [Hp Hg] [= <-].
  apply Forall_cons in Hg as [H0 Hg]. apply Forall_cons in Hg as [H1 _].
  apply dict_set_text; [apply lit_lon_text | done|].
  apply dict_set_text; [apply lit_lat_text | done | done].
Qed.

Lemma fetched_frame_text (fs : list Feature) (rs : list Row) :
  Forall feature_text fs -> mapM row_of fs = Some rs -> frame_text (pd_DataFrame rs).
Proof.
  intros Hfs Hm. apply mapM_Some in Hm.
  assert (Hrs : Forall (fun r : Row =>
            Forall (fun kv => unicode_text (fst kv) /\ cell_text (snd kv)) r) rs).
  { clear -Hfs Hm. induction Hm as [|f r fs rs Hr Hm IH]; [constructor|].
    apply Forall_cons in Hfs as [Hf Hfs]. constructor; [|by apply IH].
    by apply (row_of_text f). }
  split; simpl.
  - apply Forall_forall. intros k Hk.
    destruct (union_keys_fold rs [] (NoDup_nil_2)) as [_ Hin].
    apply Hin in Hk as [Hk|(d & Hd & Hk)]; [by apply elem_of_nil in Hk|].
    rewrite Forall_forall in Hrs. specialize (Hrs d Hd). rewrite Forall_forall in Hrs.
    unfold dict_keys in Hk. apply list_elem_of_In, in_map_iff in Hk as ([k' v] & <- & Hkv).
    apply list_elem_of_In in Hkv. by destruct (Hrs _ Hkv).
  - eapply Forall_impl; [exact Hrs|]. intros r Hr.
    eapply Forall_impl; [exact Hr|]. by intros kv [_ ?].
Qed.

(** X22: when the keys and the string values of the response's features
    are made of characters, the export never raises: for the dataset
    fetched from the response and any criteria it returns bytes, and they
    decode to the CSV text. *)
Theorem well_formed_feed_always_exports `{Host}
    (fs : list Feature) (df : DataFrame) (c : FilterCriteria) :
  Forall feature_text fs ->
  get_clean_data (response_of fs) = (df, None) ->
  exists bytes,
    csv_bytes (apply_filters df c) = inr bytes
    /\ decode_utf8 bytes = Some (to_csv (apply_filters df c)).
Proof.
  intros Hfs Hg.
  destruct (get_clean_data_cases (response_of fs)) as [[e He]|(fs' & rs & Hfs' & Hm & Hg')].
  { rewrite He in Hg. discriminate. }
  injection Hfs' as <-. rewrite Hg' in Hg. injection Hg as <-.
  pose proof (fetched_frame_text fs rs Hfs Hm) as Ht.
  pose proof (to_csv_text _ (frame_text_filters _ c Ht)) as Htext.
  destruct (encode_utf8_total _ Htext) as (bytes & E & _ & D).
  by exists bytes.
Qed.

Lemma good_feature_text : Forall feature_text [good_feature; nan_feature].
Proof.
  repeat constructor; simpl; repeat constructor; try exact I;
    apply ascii_unicode; unfold ascii_text; simpl; repeat constructor.
Qed.

Lemma well_formed_feed_always_exports_witness :
  exists bytes,
    csv_bytes (apply_filters
                 (fst (get_clean_data (response_of [good_feature; nan_feature]))) widest)
      = inr bytes
    /\ decode_utf8 bytes
       = Some (to_csv (apply_filters
                 (fst (get_clean_data (response_of [good_feature; nan_feature]))) widest)).
Proof.
  exact (well_formed_feed_always_exports [good_feature; nan_feature]
           (fst (get_clean_data (response_of [good_feature; nan_feature]))) widest
           good_feature_text eq_refl).
Defined.
